(** * The numerical core of [reanalysis.py]

    A shallow embedding of the three pure functions of the re-analysis
    script, [two_peak_half_intervals], [build_window] and
    [run_loglog_tc_scan], followed by the properties the specification
    states about them.

    Python's [float] is IEEE 754 binary64, which is exactly the kernel's
    primitive [float]: arithmetic and comparisons are the primitive ones,
    NaN and the infinities included.  They are reasoned about through
    [Prim2SF] and the specification of binary64 in [SpecFloat].  Python
    exceptions are explicit: every operation that can raise returns a
    [result]. *)

From Stdlib Require Import ZArith List Bool Lia Floats Uint63.
From Stdlib Require Import Sorted Permutation.
From Stdlib Require Strings.String.
Import ListNotations.

(** * Part I: the model *)

(** ** Python values and primitives *)

(** The source's comparisons on floats: [a < b] is [a <? b], [a <= b] is
    [a <=? b], [a == b] is [a =? b]; the two below complete the list. *)
Module PyFloat.

Notation "x >? y" := (PrimFloat.ltb y x) (at level 70, no associativity) : float_scope.
Notation "x >=? y" := (PrimFloat.leb y x) (at level 70, no associativity) : float_scope.

(** [x] is not NaN: NaN is the only float unordered with itself. *)
Definition ordered (x : float) : Prop := is_nan x = false.

End PyFloat.
Import PyFloat.

(** The exceptions the three functions can raise. *)
Inductive exception : Type :=
  | ZeroDivisionError
  | ValueError
  | OverflowError
  | IndexError.

Inductive result (A : Type) : Type :=
  | Ok (a : A)
  | Raise (e : exception).
Arguments Ok {A} a.
Arguments Raise {A} e.

Definition bind {A B : Type} (r : result A) (k : A -> result B) : result B :=
  match r with
  | Ok a => k a
  | Raise e => Raise e
  end.

Notation "x <- r ;; k" := (bind r (fun x => k))
  (at level 61, r at next level, right associativity).
Notation "' p <- r ;; k" := (bind r (fun p => k))
  (at level 61, p pattern, r at next level, right associativity).

(** A comprehension whose element expression can raise: the elements are
    evaluated from left to right and the first exception ends it. *)
Fixpoint map_result {A B : Type} (f : A -> result B) (l : list A) : result (list B) :=
  match l with
  | [] => Ok []
  | a :: rest => b <- f a ;; bs <- map_result f rest ;; Ok (b :: bs)
  end.

Local Open Scope float_scope.

(** [l[i]] for an index [i >= 0]. *)
Definition get {A : Type} (l : list A) (i : nat) : result A :=
  match nth_error l i with
  | Some a => Ok a
  | None => Raise IndexError
  end.

(** [a / b] on floats. *)
Definition py_div (a b : float) : result float :=
  if b =? 0 then Raise ZeroDivisionError else Ok (a / b).

(** The length of a sequence as a float, [float(len(l))] and the implicit
    conversion in [x / len(l)]: the nearest float, ties to even.  (A
    length is a [Py_ssize_t], far below the range where the conversion
    overflows.) *)
Definition float_of_len (n : nat) : float :=
  SF2Prim (binary_normalize prec emax (Z.of_nat n) 0%Z false).

(** The implicit conversion of an [int] operand in [i * x]: the nearest
    float, ties to even, and [OverflowError] beyond the finite range. *)
Definition float_of_int (z : Z) : result float :=
  let f := SF2Prim (binary_normalize prec emax z 0%Z false) in
  if is_finite f then Ok f else Raise OverflowError.

(** The integer nearest to [m * 2^e], ties to even. *)
Definition round_half_even (m : positive) (e : Z) : Z :=
  match e with
  | Z0 => Zpos m
  | Zpos _ => Z.shiftl (Zpos m) e
  | Zneg k =>
      let d := (2 ^ Zpos k)%Z in
      let q := (Zpos m / d)%Z in
      let r := (Zpos m mod d)%Z in
      match (2 * r ?= d)%Z with
      | Lt => q
      | Gt => (q + 1)%Z
      | Eq => if Z.even q then q else (q + 1)%Z
      end
  end.

(** [round(x)] without [ndigits], an [int]; [int(...)] of it is itself. *)
Definition py_round (x : float) : result Z :=
  match Prim2SF x with
  | S754_nan => Raise ValueError
  | S754_infinity _ => Raise OverflowError
  | S754_zero _ => Ok 0%Z
  | S754_finite s m e => Ok (cond_Zopp s (round_half_even m e))
  end.

(** [range(n)]. *)
Definition py_range (n : Z) : list Z := map Z.of_nat (seq 0 (Z.to_nat n)).

(** [sum] as CPython computed it up to 3.11: the items added from left to
    right, starting from the integer 0.  (Since 3.12 the additions are
    compensated; the functions below take the summation as a parameter, and
    this one instantiates it in the examples.) *)
Definition sum_left (l : list float) : float := fold_left PrimFloat.add l 0.

(** ** Window Builder: [build_window] *)

(** A half-maximum interval [(left_temperature, right_temperature)]. *)
Definition interval : Type := float * float.

(** [(t_env_min, t_env_max, tc_ov_min, tc_ov_max)]. *)
Definition window : Type := float * float * float * float.

(** [min] over the non-empty sequence [x :: xs]: the running result is
    replaced by an item only when [item < result]. *)
Definition py_min (x : float) (xs : list float) : float :=
  fold_left (fun best item => if item <? best then item else best) xs x.

(** [max]: the running result is replaced only when [item > result]. *)
Definition py_max (x : float) (xs : list float) : float :=
  fold_left (fun best item => if item >? best then item else best) xs x.

(** The loop of [build_window] that appends the bounds of every interval
    that is not [None] to [lefts] and [rights], in input order. *)
Fixpoint bounds (intervals : list (option interval)) : list float * list float :=
  match intervals with
  | [] => ([], [])
  | None :: rest => bounds rest
  | Some (l, r) :: rest =>
      let (lefts, rights) := bounds rest in (l :: lefts, r :: rights)
  end.

(** The intersection before the fallback: [(max(lefts), min(rights))]. *)
Definition raw_overlap (intervals : list (option interval)) : option (float * float) :=
  match bounds intervals with
  | (l0 :: ls, r0 :: rs) => Some (py_max l0 ls, py_min r0 rs)
  | _ => None
  end.

Definition build_window (intervals : list (option interval)) : option window :=
  match bounds intervals with
  | (l0 :: ls, r0 :: rs) =>
      let t_env_min := py_min l0 ls in
      let t_env_max := py_max r0 rs in
      let tc_ov_min := py_max l0 ls in
      let tc_ov_max := py_min r0 rs in
      if negb (tc_ov_min <=? tc_ov_max)
      then Some (t_env_min, t_env_max, t_env_min, t_env_max)
      else Some (t_env_min, t_env_max, tc_ov_min, tc_ov_max)
  | _ => None
  end.

(** ** Peak Detector: [two_peak_half_intervals] *)

Section PeakDetector.

(** The built-in [sum] over a list of floats. *)
Variable fsum : list float -> float.

(** The inner [for k in range(max_k + 1)] loop: [False] at the first [k]
    with [values[i - k] <= mean_left], [True] when the range is exhausted. *)
Fixpoint strong_enough (values : list float) (mean_left : float) (i : nat)
    (ks : list nat) : result bool :=
  match ks with
  | [] => Ok true
  | k :: rest =>
      v <- get values (i - k) ;;
      if v <=? mean_left then Ok false else strong_enough values mean_left i rest
  end.

(** One iteration of [for i in range(n)]: whether [i] is appended to
    [peaks]. *)
Definition is_peak (values : list float) (n i : nat) : result bool :=
  v <- get values i ;;
  left_ok <- (if Nat.eqb i 0 then Ok true
              else p <- get values (i - 1) ;; Ok (v >=? p)) ;;
  right_ok <- (if Nat.eqb i (n - 1) then Ok true
               else q <- get values (i + 1) ;; Ok (v >=? q)) ;;
  if left_ok && right_ok && (v >? 0) then
    if Nat.ltb i 5 then Ok false
    else
      let left_slice := firstn i values in
      mean_left <- py_div (fsum left_slice) (float_of_len (length left_slice)) ;;
      let max_k := Nat.min 3 i in
      strong_enough values mean_left i (seq 0 (max_k + 1))
  else Ok false.

(** The [for i in range(n)] loop over the indices [idxs], collecting the
    peaks in increasing order. *)
Fixpoint collect_peaks (values : list float) (n : nat) (idxs : list nat) : result (list nat) :=
  match idxs with
  | [] => Ok []
  | i :: rest =>
      b <- is_peak values n i ;;
      peaks <- collect_peaks values n rest ;;
      Ok (if b then i :: peaks else peaks)
  end.

(** The candidate list before ranking. *)
Definition peak_candidates (values : list float) : result (list nat) :=
  let n := length values in
  if Nat.eqb n 1 then Ok [0%nat] else collect_peaks values n (seq 0 n).

(** [peaks.sort(key=lambda idx: values[idx], reverse=True)].  The keys are
    computed first; the sort is stable and descending, so an index goes
    after every index already placed whose key is not smaller. *)
Fixpoint insert_desc (x : nat * float) (sorted : list (nat * float)) : list (nat * float) :=
  match sorted with
  | [] => [x]
  | y :: rest => if snd y <? snd x then x :: sorted else y :: insert_desc x rest
  end.

Definition sort_desc (keyed : list (nat * float)) : list (nat * float) :=
  fold_left (fun sorted x => insert_desc x sorted) keyed [].

Definition sort_by_value (values : list float) (peaks : list nat) : result (list nat) :=
  keyed <- map_result (fun idx => v <- get values idx ;; Ok (idx, v)) peaks ;;
  Ok (map fst (sort_desc keyed)).

(** The [dedup] loop: an index is appended unless it is in [dedup]
    already. *)
Fixpoint dedup_loop (peaks dedup : list nat) : list nat :=
  match peaks with
  | [] => dedup
  | idx :: rest =>
      if existsb (Nat.eqb idx) dedup then dedup_loop rest dedup
      else dedup_loop rest (dedup ++ [idx])
  end.

(** [peaks] as the final loop reads it: ranked, without repeats. *)
Definition ranked_peaks (values : list float) : result (list nat) :=
  peaks <- peak_candidates values ;;
  sorted <- sort_by_value values peaks ;;
  Ok (dedup_loop sorted []).

(** [while left_idx > 0 and values[left_idx - 1] >= half: left_idx -= 1]. *)
Fixpoint walk_left (values : list float) (half : float) (left_idx : nat) : result nat :=
  match left_idx with
  | O => Ok O
  | S prev =>
      v <- get values prev ;;
      if v >=? half then walk_left values half prev else Ok left_idx
  end.

(** [while right_idx < last and values[right_idx + 1] >= half: right_idx += 1],
    by recursion on [room = last - right_idx], so that [right_idx < last]
    is [room <> 0]. *)
Fixpoint walk_right (values : list float) (half : float) (room right_idx : nat) : result nat :=
  match room with
  | O => Ok right_idx
  | S room' =>
      v <- get values (right_idx + 1) ;;
      if v >=? half then walk_right values half room' (right_idx + 1) else Ok right_idx
  end.

(** The two walks from the peak [idx]: [(left_idx, right_idx)]. *)
Definition half_max_bounds (values : list float) (half : float) (idx : nat) : result (nat * nat) :=
  left_idx <- walk_left values half idx ;;
  let last := (length values - 1)%nat in
  right_idx <- walk_right values half (last - idx) idx ;;
  Ok (left_idx, right_idx).

(** The body of the final loop for the peak [idx]: the value stored in
    its slot ([None] when the slot is left as it was). *)
Definition slot_interval (values temps : list float) (idx : nat) : result (option interval) :=
  peak_val <- get values idx ;;
  if peak_val <=? 0 then Ok None
  else
    let half := peak_val / 2 in
    '(left_idx, right_idx) <- half_max_bounds values half idx ;;
    tl <- get temps left_idx ;;
    tr <- get temps right_idx ;;
    Ok (Some (tl, tr)).

Definition two_peak_half_intervals (values temps : list float) : result (list (option interval)) :=
  let n := length values in
  if Nat.eqb n 0 then Ok [None; None]
  else
    peaks <- ranked_peaks values ;;
    match firstn 2 peaks with
    | [] => Ok [None; None]
    | [idx0] => r0 <- slot_interval values temps idx0 ;; Ok [r0; None]
    | idx0 :: idx1 :: _ =>
        r0 <- slot_interval values temps idx0 ;;
        r1 <- slot_interval values temps idx1 ;;
        Ok [r0; r1]
    end.

End PeakDetector.

(** ** Tc Scan Engine: [run_loglog_tc_scan] *)

(** A fit record [(tc, beta, r2, slope, intercept, n_points, is_valid)]. *)
Record fit_record : Type := {
  tc_candidate : float;
  beta : float;
  r_squared : float;
  slope : float;
  intercept : float;
  n_points : nat;
  is_valid : bool
}.

(** The record appended when a candidate has fewer than four samples or
    a zero denominator:
    [(tc, 0.0, float("-inf"), 0.0, 0.0, len(x_vals), False)]. *)
Definition sentinel (tc : float) (n : nat) : fit_record :=
  {| tc_candidate := tc; beta := 0; r_squared := neg_infinity; slope := 0;
     intercept := 0; n_points := n; is_valid := false |}.

(** The test of the inner loop:
    [t < tc and t >= t_min and t <= t_max and m > 0.0]. *)
Definition qualifies (t_min t_max tc : float) (tm : float * float) : bool :=
  let (t, m) := tm in
  (t <? tc) && (t >=? t_min) && (t <=? t_max) && (m >? 0).

(** One step of the best-fit loop: [best] after the record [r]. *)
Definition select_step (best : option fit_record) (r : fit_record) : option fit_record :=
  if negb (is_valid r) || negb (is_finite (r_squared r)) || (r_squared r <=? 0)
  then best
  else
    match best with
    | None => Some r
    | Some b => if r_squared r >? r_squared b then Some r else best
    end.

(** The best-fit loop over [results], from [best = None]. *)
Definition select_best (results : list fit_record) : option fit_record :=
  fold_left select_step results None.

Section TcScan.

(** The built-in [sum] over a list (or generator) of floats. *)
Variable fsum : list float -> float.

(** The C library's [log] and [pow], which [math.log] and [**] call on
    the arguments that need them. *)
Variable libm_log : float -> float.
Variable libm_pow : float -> float -> float.

(** [math.log(x)]: NaN for NaN, the C library's logarithm for a positive
    argument ([+inf] included), [ValueError] otherwise. *)
Definition math_log (x : float) : result float :=
  if is_nan x then Ok x
  else if x >? 0 then Ok (libm_log x)
  else Raise ValueError.

(** [v ** 2]: the special cases of float exponentiation at the exponent
    [2.0], then the C library's [pow] on [abs(v)], whose overflow raises
    [OverflowError]. *)
Definition py_square (v : float) : result float :=
  if is_nan v then Ok v
  else if is_infinity v then Ok (abs v)
  else if v =? 0 then Ok 0
  else if abs v =? 1 then Ok 1
  else
    let r := libm_pow (abs v) 2 in
    if is_infinity r then Raise OverflowError else Ok r.

(** The inner loop over [zip(temps, mags)] that fills [x_vals] and
    [y_vals]. *)
Fixpoint fit_samples (t_min t_max tc : float) (pairs : list (float * float))
    : result (list float * list float) :=
  match pairs with
  | [] => Ok ([], [])
  | (t, m) :: rest =>
      if qualifies t_min t_max tc (t, m) then
        x <- math_log (tc - t) ;;
        y <- math_log m ;;
        '(x_vals, y_vals) <- fit_samples t_min t_max tc rest ;;
        Ok (x :: x_vals, y :: y_vals)
      else fit_samples t_min t_max tc rest
  end.


(** The regression on the samples, from [if len(x_vals) < 4] to the
    record that is appended. *)
Definition fit_record_of (tc : float) (x_vals y_vals : list float) : result fit_record :=
  if Nat.ltb (length x_vals) 4 then Ok (sentinel tc (length x_vals))
  else
    let n := float_of_len (length x_vals) in
    let sum_x := fsum x_vals in
    let sum_y := fsum y_vals in
    let sum_x2 := fsum (map (fun x => x * x) x_vals) in
    let sum_xy := fsum (map (fun xy => fst xy * snd xy) (combine x_vals y_vals)) in
    let denom := n * sum_x2 - sum_x * sum_x in
    if denom =? 0 then Ok (sentinel tc (length x_vals))
    else
      slope <- py_div (n * sum_xy - sum_x * sum_y) denom ;;
      intercept <- py_div (sum_y - slope * sum_x) n ;;
      mean_y <- py_div sum_y n ;;
      sq_tot <- map_result (fun y => py_square (y - mean_y)) y_vals ;;
      let ss_tot := fsum sq_tot in
      sq_res <- map_result (fun xy => py_square (snd xy - (slope * fst xy + intercept)))
                  (combine x_vals y_vals) ;;
      let ss_res := fsum sq_res in
      r2 <- (if ss_tot =? 0 then Ok 1
             else q <- py_div ss_res ss_tot ;; Ok (1 - q)) ;;
      let is_valid := (slope >? 0) && (r2 >? 0) && (r2 <=? 1) in
      let beta := slope in
      Ok {| tc_candidate := tc; beta := beta; r_squared := r2; slope := slope;
            intercept := intercept; n_points := length x_vals; is_valid := is_valid |}.

(** The body of the candidate loop once [tc] has passed the range test:
    the record appended to [results]. *)
Definition fit_candidate (temps mags : list float) (t_min t_max tc : float) : result fit_record :=
  '(x_vals, y_vals) <- fit_samples t_min t_max tc (combine temps mags) ;;
  fit_record_of tc x_vals y_vals.

(** The candidate of step [i]: [tc_min + i * tc_step]. *)
Definition candidate (tc_min tc_step : float) (i : Z) : result float :=
  fi <- float_of_int i ;; Ok (tc_min + fi * tc_step).

(** The range test: [tc < tc_min or tc > tc_max]. *)
Definition out_of_range (tc_min tc_max tc : float) : bool :=
  (tc <? tc_min) || (tc >? tc_max).

(** The candidate loop over the steps [steps], in order. *)
Fixpoint scan_loop (temps mags : list float) (t_min t_max tc_min tc_max tc_step : float)
    (steps : list Z) : result (list fit_record) :=
  match steps with
  | [] => Ok []
  | i :: rest =>
      tc <- candidate tc_min tc_step i ;;
      if out_of_range tc_min tc_max tc
      then scan_loop temps mags t_min t_max tc_min tc_max tc_step rest
      else
        r <- fit_candidate temps mags t_min t_max tc ;;
        results <- scan_loop temps mags t_min t_max tc_min tc_max tc_step rest ;;
        Ok (r :: results)
  end.

(** [int(round((tc_max - tc_min) / tc_step))]. *)
Definition scan_steps (tc_min tc_max tc_step : float) : result Z :=
  q <- py_div (tc_max - tc_min) tc_step ;;
  py_round q.

Definition run_loglog_tc_scan (temps mags : list float)
    (t_min t_max tc_min tc_max tc_step : float)
    : result (list fit_record * option fit_record) :=
  n_steps <- scan_steps tc_min tc_max tc_step ;;
  results <- scan_loop temps mags t_min t_max tc_min tc_max tc_step
               (py_range (n_steps + 1)) ;;
  Ok (results, select_best results).

End TcScan.

(** ** Automatic windows: [auto_windows_from_scan] *)

Section AutoWindows.

(** The built-in [sum] over a list of floats. *)
Variable fsum : list float -> float.

(** [it is not None]. *)
Definition is_not_none {A : Type} (it : option A) : bool :=
  match it with
  | Some _ => true
  | None => false
  end.

Definition auto_windows_from_scan (c_vals x_vals temps : list float)
    : result (option window * option window) :=
  c_ints <- two_peak_half_intervals fsum c_vals temps ;;
  chi_ints <- two_peak_half_intervals fsum x_vals temps ;;
  c0 <- get c_ints 0 ;;
  chi0 <- get chi_ints 0 ;;
  let primary := build_window [c0; chi0] in
  c1 <- get c_ints 1 ;;
  chi1 <- get chi_ints 1 ;;
  if is_not_none c1 || is_not_none chi1
  then Ok (primary, build_window [c1; chi1])
  else Ok (primary, None).

End AutoWindows.

(** ** The readers: [read_scan_csv] and [read_full_scan_csv] *)

Section CsvReaders.

(** [float(s)] on a field of a row: [None] stands for [ValueError]. *)
Variable py_float : String.string -> option float.

(** The body of the loop of [read_scan_csv] for one row: the pair that is
    appended, or [None] when the row is skipped ([len(row) < 3], or a
    [ValueError] in [float(row[0])] or [float(row[2])]). *)
Definition scan_row (row : list String.string) : option (float * float) :=
  if Nat.ltb (length row) 3 then None
  else
    match nth_error row 0, nth_error row 2 with
    | Some f0, Some f2 =>
        match py_float f0 with
        | None => None
        | Some t =>
            match py_float f2 with
            | None => None
            | Some m => Some (t, m)
            end
        end
    | _, _ => None
    end.

(** The loop of [read_scan_csv] over the rows after the header. *)
Fixpoint scan_rows (rows : list (list String.string)) : list float * list float :=
  match rows with
  | [] => ([], [])
  | row :: rest =>
      let (temps, mags) := scan_rows rest in
      match scan_row row with
      | Some (t, m) => (t :: temps, m :: mags)
      | None => (temps, mags)
      end
  end.

(** [read_scan_csv] on the rows that [csv.reader] yields:
    [next(reader, None)] takes the header away when there is one. *)
Definition read_scan_csv (rows : list (list String.string)) : list float * list float :=
  scan_rows (tl rows).

(** The five columns of a row, [(t, e, m, c, x)]. *)
Definition full_record : Type := float * float * float * float * float.

(** The body of the loop of [read_full_scan_csv] for one row: the five
    floats that are appended, or [None] when the row is skipped
    ([len(row) < 5], or a [ValueError] in one of the five conversions,
    tried from [row[0]] to [row[4]]). *)
Definition full_row (row : list String.string) : option full_record :=
  if Nat.ltb (length row) 5 then None
  else
    match row with
    | f0 :: f1 :: f2 :: f3 :: f4 :: _ =>
        match py_float f0 with
        | None => None
        | Some t =>
        match py_float f1 with
        | None => None
        | Some e =>
        match py_float f2 with
        | None => None
        | Some m =>
        match py_float f3 with
        | None => None
        | Some c =>
        match py_float f4 with
        | None => None
        | Some x => Some (t, e, m, c, x)
        end end end end end
    | _ => None
    end.

(** The five lists [(temps, e_vals, m_vals, c_vals, x_vals)]. *)
Definition full_columns : Type :=
  list float * list float * list float * list float * list float.

(** The loop of [read_full_scan_csv] over the rows after the header. *)
Fixpoint full_rows (rows : list (list String.string)) : full_columns :=
  match rows with
  | [] => ([], [], [], [], [])
  | row :: rest =>
      let '(temps, e_vals, m_vals, c_vals, x_vals) := full_rows rest in
      match full_row row with
      | Some (t, e, m, c, x) =>
          (t :: temps, e :: e_vals, m :: m_vals, c :: c_vals, x :: x_vals)
      | None => (temps, e_vals, m_vals, c_vals, x_vals)
      end
  end.

Definition read_full_scan_csv (rows : list (list String.string)) : full_columns :=
  full_rows (tl rows).

End CsvReaders.

(** ** The analysis of [main] *)

(** The options of the command line that the analysis reads: [--tmin],
    [--tmax], [--tcmin], [--tcmax] ([None] when absent) and [--tcstep]. *)
Record arguments : Type := {
  tmin : option float;
  tmax : option float;
  tcmin : option float;
  tcmax : option float;
  tcstep : float
}.

(** How the analysis ends: [SystemExit] when no window is found, an
    exception that nothing catches, or the automatic window, the window
    used and the result of the scan, which the report is written from. *)
Inductive main_outcome : Type :=
  | SystemExit
  | Uncaught (e : exception)
  | Analysed (auto used : window) (results : list fit_record) (best : option fit_record).

Section Main.

Variable py_float : String.string -> option float.
Variable fsum : list float -> float.
Variable libm_log : float -> float.
Variable libm_pow : float -> float -> float.

(** [main] from the rows of the scan file to the result of the scan: the
    columns are read, the windows found, the options override the
    automatic bounds one by one, and the scan runs on the temperatures
    and [m_vals].  (The parsing of the command line and the checks of
    the directory come before, the files written and the line printed
    come after.) *)
Definition main (args : arguments) (rows : list (list String.string)) : main_outcome :=
  let '(temps, e_vals, m_vals, c_vals, x_vals) := read_full_scan_csv py_float rows in
  match auto_windows_from_scan fsum c_vals x_vals temps with
  | Raise e => Uncaught e
  | Ok (primary, secondary) =>
      match primary with
      | None => SystemExit
      | Some (auto_tmin, auto_tmax, auto_tcmin, auto_tcmax) =>
          let t_min := match tmin args with Some v => v | None => auto_tmin end in
          let t_max := match tmax args with Some v => v | None => auto_tmax end in
          let tc_min := match tcmin args with Some v => v | None => auto_tcmin end in
          let tc_max := match tcmax args with Some v => v | None => auto_tcmax end in
          match run_loglog_tc_scan fsum libm_log libm_pow temps m_vals
                  t_min t_max tc_min tc_max (tcstep args) with
          | Raise e => Uncaught e
          | Ok (results, best) =>
              Analysed (auto_tmin, auto_tmax, auto_tcmin, auto_tcmax)
                (t_min, t_max, tc_min, tc_max) results best
          end
      end
  end.

End Main.

(** ** Vocabulary of the statements *)

(** The value is a zero or a finite non-zero number. *)
Definition SFfinite (x : spec_float) : bool :=
  match x with
  | S754_zero _ | S754_finite _ _ _ => true
  | _ => false
  end.

(** The value is not NaN. *)
Definition SFordered (x : spec_float) : bool :=
  match x with
  | S754_nan => false
  | _ => true
  end.

(** The float [2.0]. *)
Definition SFtwo : spec_float := S754_finite false 4503599627370496 (-51).

(** The intervals of the input that are not [None], in input order. *)
Definition present (intervals : list (option interval)) : list interval :=
  flat_map (fun it => match it with Some i => [i] | None => [] end) intervals.

(** A record that the best-fit selection may pick: [is_valid] holds and
    [r_squared] is finite and positive. *)
Definition eligible (r : fit_record) : Prop :=
  is_valid r = true /\ is_finite (r_squared r) = true /\ (r_squared r >? 0) = true.

(** [b] is the first record of [results], in order, whose [r_squared] is
    maximal among the eligible records. *)
Definition first_best (results : list fit_record) (b : fit_record) : Prop :=
  exists k,
    nth_error results k = Some b /\ eligible b /\
    Forall (fun r => eligible r -> (r_squared r <=? r_squared b) = true) results /\
    Forall (fun r => eligible r -> (r_squared r <? r_squared b) = true) (firstn k results).

(** The pairs [(t, m)] that give a fit sample for the candidate [tc], in
    input order. *)
Definition fit_pairs (temps mags : list float) (t_min t_max tc : float) : list (float * float) :=
  filter (qualifies t_min t_max tc) (combine temps mags).

(** What the best-fit loop has established after the records [seen]. *)
Definition best_so_far (seen : list fit_record) (best : option fit_record) : Prop :=
  match best with
  | Some b => first_best seen b
  | None => Forall (fun r => ~ eligible r) seen
  end.


(** What the source requires of a candidate [idx] of a series of two or
    more samples: a positive value, not below its left neighbour nor its
    right one (when there is one), and none of the four samples that end
    at [idx] is [<=] the mean of the samples before [idx]. *)
Definition peak_conditions (fsum : list float -> float) (values : list float) (idx : nat) : Prop :=
  exists v p,
    get values idx = Ok v /\ (v >? 0) = true /\
    get values (idx - 1) = Ok p /\ (v >=? p) = true /\
    (idx = (length values - 1)%nat \/
     exists q, get values (idx + 1) = Ok q /\ (v >=? q) = true) /\
    let mean_left := fsum (firstn idx values) / float_of_len idx in
    Forall (fun k => exists w, get values (idx - k) = Ok w /\ (w <=? mean_left) = false)
      [0; 1; 2; 3]%nat.

(** The temperatures are recorded in non-decreasing order, and none is
    NaN. *)
Fixpoint nondecreasing (temps : list float) : bool :=
  match temps with
  | [] => true
  | t :: rest =>
      match rest with
      | [] => t <=? t
      | u :: _ => (t <=? u) && nondecreasing rest
      end
  end.

(** An interval, when present, has its left bound at or below its right
    bound. *)
Definition oriented (it : option interval) : Prop :=
  match it with
  | Some (l, r) => (l <=? r) = true
  | None => True
  end.

(** A window, when present, has both its ranges in order. *)
Definition window_ordered (w : option window) : Prop :=
  match w with
  | Some (t_env_min, t_env_max, tc_ov_min, tc_ov_max) =>
      (t_env_min <=? t_env_max) = true /\ (tc_ov_min <=? tc_ov_max) = true
  | None => True
  end.

(** Zero, positive, or NaN. *)
Definition SFnonneg (x : spec_float) : bool :=
  match x with
  | S754_zero _ | S754_nan => true
  | S754_infinity s | S754_finite s _ _ => negb s
  end.

(** What the regression establishes of the record [rec] it appends for
    the candidate [tc] with [n] samples: the candidate and the count are
    recorded, [beta] is the slope, fewer than four samples give the
    sentinel, and a valid record has four samples or more, a positive
    slope and [0 < r_squared <= 1]. *)
Definition record_facts_of (tc : float) (n : nat) (rec : fit_record) : Prop :=
  tc_candidate rec = tc /\ n_points rec = n /\ beta rec = slope rec /\
  ((n < 4)%nat -> rec = sentinel tc n) /\
  (is_valid rec = true ->
   (4 <= n)%nat /\ (slope rec >? 0) = true /\
   (r_squared rec >? 0) = true /\ (r_squared rec <=? 1) = true).

(** The same of a record of the table, whose samples are the pairs that
    qualify for its candidate. *)
Definition record_facts (temps mags : list float) (t_min t_max : float) (rec : fit_record) : Prop :=
  record_facts_of (tc_candidate rec)
    (length (fit_pairs temps mags t_min t_max (tc_candidate rec))) rec.

(** ** Stand-ins of the C library for the examples *)

(** A small integer as a float. *)
Definition float_of_Z (z : Z) : float :=
  match z with
  | Z0 => 0
  | Zpos p => of_uint63 (Uint63.of_Z (Zpos p))
  | Zneg p => - of_uint63 (Uint63.of_Z (Zpos p))
  end.

(** A natural logarithm of positive finite floats, good to about 15
    digits: with [x = m * 2^e] and [s = (m - 1) / (m + 1)],
    [ln x = e * ln 2 + 2 * (s + s^3 / 3 + s^5 / 5 + ...)]. *)
Definition example_log (x : float) : float :=
  let (m, e) := Z.frexp x in
  let s := (m - 1) / (m + 1) in
  let s2 := s * s in
  let series :=
    fold_right (fun k acc => 2 / float_of_len (2 * k + 1) + s2 * acc) 0 (seq 0 18) in
  float_of_Z e * 0x1.62e42fefa39efp-1 + s * series.

(** [pow] at the exponent [2.0]: the rounded square. *)
Definition example_pow (x y : float) : float := x * x.

(** A magnetization curve that falls towards [T = 7]. *)
Definition example_temps : list float := [1; 2; 3; 4; 5; 6].

Definition example_mags : list float := [2.5; 2.25; 2; 1.75; 1.5; 1].

(** A series with four candidates, the strongest at index 13, and a
    scale of temperatures for it. *)
Definition example_series : list float := [0; 0; 0; 0; 0; 1; 2; 3; 4; 3; 3; 3; 3; 5; 1].

Definition example_scale : list float := [1; 2; 3; 4; 5; 6; 7; 8; 9; 10; 11; 12; 13; 14; 15].

(** ** A stand-in of [float] and a scan file for the examples *)

(** The integer that a string of decimal digits writes. *)
Fixpoint digits_value (s : String.string) (acc : Z) : option Z :=
  match s with
  | String.EmptyString => Some acc
  | String.String c rest =>
      let d := (Z.of_N (Ascii.N_of_ascii c) - 48)%Z in
      if Z.leb 0 d && Z.leb d 9 then digits_value rest (10 * acc + d)%Z else None
  end.

(** [float] on the fields of the example file: a non-empty string of
    decimal digits is read as the integer it writes, anything else is a
    [ValueError]. *)
Definition example_float (s : String.string) : option float :=
  match s with
  | String.EmptyString => None
  | _ => option_map float_of_Z (digits_value s 0%Z)
  end.

Section ExampleFile.

Import String.
Local Open Scope string_scope.

(** The rows of a scan file: the header, ten records with a peak of [C]
    and of [chi] near [T = 9], a record whose temperature is not a
    number, and an empty line. *)
Definition example_rows : list (list string) :=
  [ ["T"; "E"; "M"; "C"; "chi"];
    ["1"; "0"; "9"; "0"; "0"];
    ["2"; "0"; "9"; "0"; "0"];
    ["3"; "0"; "8"; "0"; "0"];
    ["4"; "0"; "8"; "0"; "0"];
    ["5"; "0"; "7"; "0"; "0"];
    ["6"; "0"; "6"; "1"; "1"];
    ["7"; "0"; "5"; "2"; "2"];
    ["8"; "0"; "3"; "3"; "4"];
    ["n/a"; "0"; "0"; "0"; "0"];
    ["9"; "0"; "2"; "4"; "6"];
    ["10"; "0"; "1"; "3"; "3"];
    [] ].

End ExampleFile.

(** No window given on the command line, and a step of one half. *)
Definition example_args : arguments :=
  {| tmin := None; tmax := None; tcmin := None; tcmax := None; tcstep := 0.5 |}.

(** * Part II: facts on binary64 *)

(** ** The order decided by [SFcompare] *)

Ltac cmp_cases :=
  repeat match goal with
  | |- context [Z.compare ?a ?b] => destruct (Z.compare_spec a b)
  | |- context [Pos.compare_cont Eq ?a ?b] =>
      change (Pos.compare_cont Eq a b) with (Pos.compare a b);
      destruct (Pos.compare_spec a b)
  | H : context [Z.compare ?a ?b] |- _ => destruct (Z.compare_spec a b)
  | H : context [Pos.compare_cont Eq ?a ?b] |- _ =>
      change (Pos.compare_cont Eq a b) with (Pos.compare a b) in H;
      destruct (Pos.compare_spec a b)
  end.

Ltac order_solve :=
  unfold SFleb, SFltb, SFeqb, SFcompare; intros;
  repeat match goal with x : spec_float |- _ => destruct x as [[]|[]| |[] ? ?] end;
  simpl in *; try discriminate; try reflexivity; try tauto;
  cmp_cases; simpl in *; subst; try discriminate; try reflexivity; try lia;
  try tauto.

Lemma SF_leb_trans x y z : SFleb x y = true -> SFleb y z = true -> SFleb x z = true.
Proof. order_solve. Qed.

Lemma SF_ltb_leb_trans x y z : SFltb x y = true -> SFleb y z = true -> SFltb x z = true.
Proof. order_solve. Qed.

Lemma SF_leb_ltb_trans x y z : SFleb x y = true -> SFltb y z = true -> SFltb x z = true.
Proof. order_solve. Qed.

Lemma SF_ltb_trans x y z : SFltb x y = true -> SFltb y z = true -> SFltb x z = true.
Proof. order_solve. Qed.

Lemma SF_ltb_leb x y : SFltb x y = true -> SFleb x y = true.
Proof. order_solve. Qed.

Lemma SF_ltb_irrefl x : SFltb x x = false.
Proof. order_solve. Qed.

Lemma SF_not_ltb_leb x y :
  SFordered x = true -> SFordered y = true -> SFltb x y = false -> SFleb y x = true.
Proof. order_solve. Qed.

Lemma SF_not_leb_ltb x y :
  SFordered x = true -> SFordered y = true -> SFleb x y = false -> SFltb y x = true.
Proof. order_solve. Qed.

Lemma SF_leb_not_ltb x y : SFleb x y = true -> SFltb y x = false.
Proof. order_solve. Qed.

Lemma SF_ltb_not_leb x y : SFltb x y = true -> SFleb y x = false.
Proof. order_solve. Qed.

Lemma SF_leb_refl x : SFordered x = true -> SFleb x x = true.
Proof. order_solve. Qed.

Lemma SF_leb_ordered_l x y : SFleb x y = true -> SFordered x = true.
Proof. order_solve. Qed.

Lemma SF_leb_ordered_r x y : SFleb x y = true -> SFordered y = true.
Proof. order_solve. Qed.

Lemma SF_ltb_ordered_l x y : SFltb x y = true -> SFordered x = true.
Proof. order_solve. Qed.

Lemma SF_ltb_ordered_r x y : SFltb x y = true -> SFordered y = true.
Proof. order_solve. Qed.

Lemma SF_eqb_refl x : SFeqb x x = SFordered x.
Proof. order_solve. Qed.

Lemma SF_finite_ordered x : SFfinite x = true -> SFordered x = true.
Proof. destruct x; simpl; congruence. Qed.

(** ** Rounding *)

Section Rounding.
Local Open Scope Z_scope.

Lemma digits2_pos_bounds p :
  2 ^ (Zpos (digits2_pos p) - 1) <= Zpos p < 2 ^ Zpos (digits2_pos p).
Proof.
  induction p as [p IH|p IH|]; cbn [digits2_pos].
  - rewrite Pos2Z.inj_succ.
    replace (Z.succ (Zpos (digits2_pos p)) - 1) with (Z.succ (Zpos (digits2_pos p) - 1)) by lia.
    rewrite !Z.pow_succ_r by lia. lia.
  - rewrite Pos2Z.inj_succ.
    replace (Z.succ (Zpos (digits2_pos p)) - 1) with (Z.succ (Zpos (digits2_pos p) - 1)) by lia.
    rewrite !Z.pow_succ_r by lia. lia.
  - simpl. lia.
Qed.

Lemma Zdigits2_le m k : 0 <= m < 2 ^ k -> 0 <= k -> Zdigits2 m <= k.
Proof.
  intros [H0 Hk] K. destruct m as [|p|p]; simpl; try lia.
  pose proof (digits2_pos_bounds p) as [L _].
  destruct (Z_lt_le_dec k (Zpos (digits2_pos p))) as [C|C]; [|assumption].
  assert (2 ^ k <= 2 ^ (Zpos (digits2_pos p) - 1)) by (apply Z.pow_le_mono_r; lia).
  lia.
Qed.

Lemma shr_m_shr_1 mrs : 0 <= shr_m mrs -> shr_m (shr_1 mrs) = shr_m mrs / 2.
Proof.
  destruct mrs as [m r s]; simpl. intros Hm.
  destruct m as [|[p|p|]|p]; simpl; try lia.
  - reflexivity.
  - rewrite Pos2Z.inj_xI. apply Z.div_unique with (r := 1); lia.
  - rewrite Pos2Z.inj_xO. apply Z.div_unique with (r := 0); lia.
  - reflexivity.
Qed.

(** [p] right shifts divide the mantissa by [2^p]. *)
Lemma shr_m_iter p : forall mrs,
  0 <= shr_m mrs -> shr_m (iter_pos shr_1 p mrs) = shr_m mrs / 2 ^ Zpos p.
Proof.
  induction p as [p IH|p IH|]; intros mrs Hm; cbn [iter_pos].
  - assert (H1 : 0 <= shr_m (shr_1 mrs)).
    { rewrite shr_m_shr_1 by assumption. apply Z.div_pos; lia. }
    assert (H2 : 0 <= shr_m (iter_pos shr_1 p (shr_1 mrs))).
    { rewrite IH by assumption. apply Z.div_pos; [assumption|]. apply Z.pow_pos_nonneg; lia. }
    rewrite IH by assumption. rewrite IH by assumption. rewrite shr_m_shr_1 by assumption.
    rewrite !Z.div_div by (try apply Z.pow_pos_nonneg; lia).
    f_equal. change (Zpos p~1) with (1 + 2 * Zpos p).
    replace (1 + 2 * Zpos p) with (1 + Zpos p + Zpos p) by lia.
    rewrite !Z.pow_add_r by lia. change (2 ^ 1) with 2. lia.
  - assert (H2 : 0 <= shr_m (iter_pos shr_1 p mrs)).
    { rewrite IH by assumption. apply Z.div_pos; [assumption|]. apply Z.pow_pos_nonneg; lia. }
    rewrite IH by assumption. rewrite IH by assumption.
    rewrite !Z.div_div by (try apply Z.pow_pos_nonneg; lia).
    f_equal. change (Zpos p~0) with (2 * Zpos p).
    replace (2 * Zpos p) with (Zpos p + Zpos p) by lia.
    rewrite !Z.pow_add_r by lia. lia.
  - rewrite shr_m_shr_1 by assumption. reflexivity.
Qed.

Lemma shr_m_record_of_loc m l : shr_m (shr_record_of_loc m l) = m.
Proof. destruct l as [|[]]; reflexivity. Qed.

Lemma loc_of_shr_record_of_loc m l : loc_of_shr_record (shr_record_of_loc m l) = l.
Proof. destruct l as [|[]]; reflexivity. Qed.

Lemma round_nearest_even_ge m l : m <= round_nearest_even m l.
Proof. destruct l as [|[]]; simpl; try lia. destruct (Z.even m); lia. Qed.

Lemma round_nearest_even_le m l : round_nearest_even m l <= m + 1.
Proof. destruct l as [|[]]; simpl; try lia. destruct (Z.even m); lia. Qed.

(** With an exponent of at least [emin], the shift to the format's
    exponent leaves a positive mantissa positive. *)
Lemma shr_fexp_pos m e l :
  0 < m -> emin <= e ->
  0 < shr_m (fst (shr_fexp prec emax m e l)) /\ emin <= snd (shr_fexp prec emax m e l).
Proof.
  intros Hm He. unfold shr_fexp, shr.
  destruct m as [|p|p]; try lia.
  cbn [Zdigits2].
  pose proof (digits2_pos_bounds p) as Hd.
  set (d := Zpos (digits2_pos p)) in *.
  unfold fexp, SpecFloat.emin, emin, prec, emax in *.
  destruct (Z.max (d + e - 53) (3 - 1024 - 53) - e) as [|n|n] eqn:En; cbn [fst snd].
  - rewrite shr_m_record_of_loc. lia.
  - rewrite shr_m_iter by (rewrite shr_m_record_of_loc; lia).
    rewrite shr_m_record_of_loc. split; [|lia].
    apply Z.div_str_pos. split; [apply Z.pow_pos_nonneg; lia|].
    apply Z.le_trans with (2 ^ (d - 1)); [|lia].
    apply Z.pow_le_mono_r; lia.
  - rewrite shr_m_record_of_loc. lia.
Qed.

Lemma shr_fexp_nonneg m e l :
  0 <= m -> 0 <= shr_m (fst (shr_fexp prec emax m e l)).
Proof.
  intros Hm. unfold shr_fexp, shr.
  destruct (fexp prec emax (Zdigits2 m + e) - e) as [|n|n]; cbn [fst];
    rewrite ?shr_m_iter by (rewrite shr_m_record_of_loc; lia);
    rewrite shr_m_record_of_loc; try lia.
  apply Z.div_pos; [lia|apply Z.pow_pos_nonneg; lia].
Qed.

Lemma shr_fexp_noshift m e l :
  fexp prec emax (Zdigits2 m + e) <= e ->
  shr_fexp prec emax m e l = (shr_record_of_loc m l, e).
Proof.
  intros H. unfold shr_fexp, shr.
  destruct (fexp prec emax (Zdigits2 m + e) - e) eqn:E; try reflexivity. lia.
Qed.

(** Rounding never yields NaN and keeps the sign it is given. *)
Lemma binary_round_aux_shape sx m e l :
  0 <= m ->
  match binary_round_aux prec emax sx m e l with
  | S754_nan => False
  | S754_zero s | S754_infinity s | S754_finite s _ _ => s = sx
  end.
Proof.
  intros Hm. unfold binary_round_aux.
  pose proof (shr_fexp_nonneg m e l Hm) as H1.
  destruct (shr_fexp prec emax m e l) as [mrs' e'] eqn:E1. cbn [fst] in H1.
  pose proof (round_nearest_even_ge (shr_m mrs') (loc_of_shr_record mrs')) as H2.
  assert (H3 : 0 <= round_nearest_even (shr_m mrs') (loc_of_shr_record mrs')) by lia.
  pose proof (shr_fexp_nonneg _ e' loc_Exact H3) as H4.
  destruct (shr_fexp prec emax _ e' loc_Exact) as [mrs'' e''] eqn:E2. cbn [fst] in H4.
  destruct (shr_m mrs'') as [|q|q]; try lia; try reflexivity.
  destruct (e'' <=? emax - prec); reflexivity.
Qed.

(** Rounding a positive mantissa whose exponent is at least [emin] never
    yields zero: there is no underflow to zero. *)
Lemma binary_round_aux_nonzero sx m e l :
  0 < m -> emin <= e ->
  match binary_round_aux prec emax sx m e l with
  | S754_infinity s | S754_finite s _ _ => s = sx
  | _ => False
  end.
Proof.
  intros Hm He. unfold binary_round_aux.
  pose proof (shr_fexp_pos m e l Hm He) as [H1 H1e].
  destruct (shr_fexp prec emax m e l) as [mrs' e'] eqn:E1. cbn [fst snd] in H1, H1e.
  pose proof (round_nearest_even_ge (shr_m mrs') (loc_of_shr_record mrs')) as H2.
  assert (H3 : 0 < round_nearest_even (shr_m mrs') (loc_of_shr_record mrs')) by lia.
  pose proof (shr_fexp_pos _ e' loc_Exact H3 H1e) as [H4 _].
  destruct (shr_fexp prec emax _ e' loc_Exact) as [mrs'' e''] eqn:E2. cbn [fst] in H4.
  destruct (shr_m mrs'') as [|q|q]; try lia.
  destruct (e'' <=? emax - prec); reflexivity.
Qed.

(** At the exponent [emin] and below [2^53] nothing is shifted. *)
Lemma binary_round_aux_emin m l :
  0 <= m -> round_nearest_even m l < 2 ^ 53 ->
  binary_round_aux prec emax false m emin l =
  match round_nearest_even m l with
  | Zpos p => S754_finite false p emin
  | _ => S754_zero false
  end.
Proof.
  intros Hm Hr. unfold binary_round_aux.
  pose proof (round_nearest_even_ge m l) as Hge.
  rewrite shr_fexp_noshift.
  2:{ assert (Zdigits2 m <= 53) by (apply Zdigits2_le; lia).
      unfold fexp, emin, SpecFloat.emin, prec, emax. lia. }
  rewrite shr_m_record_of_loc, loc_of_shr_record_of_loc.
  rewrite shr_fexp_noshift.
  2:{ assert (Zdigits2 (round_nearest_even m l) <= 53) by (apply Zdigits2_le; lia).
      unfold fexp, emin, SpecFloat.emin, prec, emax. lia. }
  rewrite shr_m_record_of_loc.
  destruct (round_nearest_even m l) as [|p|p]; try reflexivity. lia.
Qed.

Lemma shl_align_spec mx ex ez :
  ez <= ex -> Zpos (fst (shl_align mx ex ez)) = Zpos mx * 2 ^ (ex - ez).
Proof.
  intros H. unfold shl_align.
  destruct (ez - ex) as [|d|d] eqn:E; cbn [fst].
  - replace (ex - ez) with 0 by lia. simpl. lia.
  - lia.
  - replace (ex - ez) with (Zpos d) by lia.
    clear. induction d using Pos.peano_ind.
    + simpl. lia.
    + rewrite Pos.iter_succ, Pos2Z.inj_xO, IHd, Pos2Z.inj_succ, Z.pow_succ_r by lia. lia.
Qed.

Lemma shl_align_exp mx ex ez :
  emin <= ex -> emin <= ez -> emin <= snd (shl_align mx ex ez).
Proof.
  intros. unfold shl_align. destruct (ez - ex); cbn [snd]; assumption.
Qed.

Lemma binary_round_nonzero sx mx ex :
  emin <= ex ->
  match binary_round prec emax sx mx ex with
  | S754_infinity s | S754_finite s _ _ => s = sx
  | _ => False
  end.
Proof.
  intros He. unfold binary_round.
  pose proof (shl_align_exp mx ex (fexp prec emax (Zpos (digits2_pos mx) + ex)) He) as H.
  destruct (shl_align mx ex _) as [mz ez]. cbn [snd] in H.
  apply binary_round_aux_nonzero; [lia|].
  apply H. unfold fexp, SpecFloat.emin, emin, prec, emax. lia.
Qed.



Lemma shr_fexp_bound m e l :
  0 < m -> shr_m (fst (shr_fexp prec emax m e l)) < 2 ^ 53 /\ e <= snd (shr_fexp prec emax m e l).
Proof.
  intros Hm. unfold shr_fexp, shr.
  destruct m as [|p|p]; try lia.
  cbn [Zdigits2].
  pose proof (digits2_pos_bounds p) as Hd.
  set (d := Zpos (digits2_pos p)) in *.
  assert (Hd0 : 0 < d) by (unfold d; lia).
  unfold fexp, SpecFloat.emin, emin, prec, emax in *.
  destruct (Z.max (d + e - 53) (3 - 1024 - 53) - e) as [|n|n] eqn:En; cbn [fst snd].
  - rewrite shr_m_record_of_loc. split; [|lia].
    eapply Z.lt_le_trans; [apply Hd|]. apply Z.pow_le_mono_r; lia.
  - rewrite shr_m_iter by (rewrite shr_m_record_of_loc; lia).
    rewrite shr_m_record_of_loc. split; [|lia].
    destruct (Z_le_gt_dec d 53) as [C|C].
    + apply Z.le_lt_trans with (Zpos p).
      * apply Z.div_le_upper_bound; [apply Z.pow_pos_nonneg; lia|].
        assert (0 < 2 ^ Zpos n) by (apply Z.pow_pos_nonneg; lia). nia.
      * eapply Z.lt_le_trans; [apply Hd|]. apply Z.pow_le_mono_r; lia.
    + apply Z.div_lt_upper_bound; [apply Z.pow_pos_nonneg; lia|].
      apply Z.lt_le_trans with (2 ^ d); [apply Hd|].
      rewrite <- Z.pow_add_r by lia. apply Z.pow_le_mono_r; lia.
  - rewrite shr_m_record_of_loc. split; [|lia].
    eapply Z.lt_le_trans; [apply Hd|]. apply Z.pow_le_mono_r; lia.
Qed.

(** The shape of a rounded positive mantissa: no NaN, no zero, the sign
    kept, a mantissa below [2^53] and an exponent that did not decrease. *)
Lemma binary_round_aux_bounded sx m e l :
  0 < m -> emin <= e ->
  match binary_round_aux prec emax sx m e l with
  | S754_infinity s => s = sx
  | S754_finite s m' e' => s = sx /\ Zpos m' < 2 ^ 53 /\ e <= e'
  | _ => False
  end.
Proof.
  intros Hm He. unfold binary_round_aux.
  pose proof (shr_fexp_pos m e l Hm He) as [H1 H1e].
  pose proof (shr_fexp_bound m e l Hm) as [_ H1m].
  destruct (shr_fexp prec emax m e l) as [mrs' e'] eqn:E1. cbn [fst snd] in H1, H1e, H1m.
  pose proof (round_nearest_even_ge (shr_m mrs') (loc_of_shr_record mrs')) as H2.
  assert (H3 : 0 < round_nearest_even (shr_m mrs') (loc_of_shr_record mrs')) by lia.
  pose proof (shr_fexp_pos _ e' loc_Exact H3 H1e) as [H4 _].
  pose proof (shr_fexp_bound _ e' loc_Exact H3) as [H5 H6].
  destruct (shr_fexp prec emax _ e' loc_Exact) as [mrs'' e''] eqn:E2. cbn [fst snd] in H4, H5, H6.
  destruct (shr_m mrs'') as [|q|q]; try lia.
  destruct (e'' <=? emax - prec); [|reflexivity].
  repeat split; lia.
Qed.

Lemma binary_round_bounded sx mx ex :
  emin <= ex ->
  match binary_round prec emax sx mx ex with
  | S754_infinity s => s = sx
  | S754_finite s m' e' =>
      s = sx /\ Zpos m' < 2 ^ 53 /\
      Z.min ex (fexp prec emax (Zpos (digits2_pos mx) + ex)) <= e'
  | _ => False
  end.
Proof.
  intros He. unfold binary_round.
  assert (Hf : emin <= fexp prec emax (Zpos (digits2_pos mx) + ex)).
  { unfold fexp, SpecFloat.emin, emin, prec, emax. lia. }
  pose proof (shl_align_exp mx ex _ He Hf) as H.
  assert (Hs : Z.min ex (fexp prec emax (Zpos (digits2_pos mx) + ex))
               <= snd (shl_align mx ex (fexp prec emax (Zpos (digits2_pos mx) + ex)))).
  { unfold shl_align. destruct (fexp prec emax (Zpos (digits2_pos mx) + ex) - ex) eqn:E;
      cbn [snd]; lia. }
  destruct (shl_align mx ex _) as [mz ez]. cbn [snd] in H, Hs.
  pose proof (binary_round_aux_bounded sx (Zpos mz) ez loc_Exact ltac:(lia) H) as Hr.
  destruct (binary_round_aux prec emax sx (Zpos mz) ez loc_Exact); try assumption.
  destruct Hr as (? & ? & ?). repeat split; try assumption. lia.
Qed.

(** What [valid_binary] says of a finite value. *)
Lemma valid_finite_inv s m e :
  valid_binary (S754_finite s m e) = true ->
  emin <= e <= emax - prec /\ Zpos (digits2_pos m) <= prec /\
  (Zpos (digits2_pos m) = prec \/ e = emin).
Proof.
  unfold SpecFloat.valid_binary, bounded, canonical_mantissa, fexp, SpecFloat.emin, emin, prec, emax.
  intros H. apply andb_true_iff in H. destruct H as [H H'].
  apply Z.eqb_eq in H. apply Z.leb_le in H'. lia.
Qed.

Lemma div_eucl_pair a b : Z.div_eucl a b = (a / b, a mod b).
Proof. unfold Z.div, Z.modulo. destruct (Z.div_eucl a b); reflexivity. Qed.

End Rounding.

(** ** Subtraction, halving, NaN *)

Section Arithmetic.
Local Open Scope Z_scope.

(** A strict comparison of two binary64 values gives a positive
    difference: subtraction never underflows to zero. *)
Lemma SFsub_pos x y :
  valid_binary x = true -> valid_binary y = true ->
  SFltb y x = true -> SFltb (S754_zero false) (SF64sub x y) = true.
Proof.
  intros Vx Vy Hlt.
  destruct x as [sx|sx| |sx mx ex], y as [sy|sy| |sy my ey];
    try (destruct sx); try (destruct sy); try discriminate Hlt; try reflexivity.
  all: apply valid_finite_inv in Vx, Vy;
    pose proof (digits2_pos_bounds mx) as Dx; pose proof (digits2_pos_bounds my) as Dy;
    destruct Vx as (Ex & Px & Cx), Vy as (Ey & Py & Cy);
    unfold SF64sub, SFsub, binary_normalize, cond_Zopp;
    rewrite !shl_align_spec by lia;
    unfold SFltb, SFcompare in Hlt.
  all: match goal with |- context [match ?D with Z0 => _ | Zpos _ => _ | Zneg _ => _ end] =>
         assert (HD : 0 < D); [| destruct D as [|d|d] eqn:ED; try lia;
           match goal with |- context [binary_round _ _ ?s ?m ?e] =>
             pose proof (binary_round_nonzero s m e ltac:(lia)) as HR;
             destruct (binary_round prec emax s m e) as [?|?| |? ? ?];
             try contradiction; subst; reflexivity
           end]
       end.
  all: unfold prec, emin, emax, SpecFloat.emin in *.
  - (* both negative *)
    destruct (Z.compare_spec ey ex) as [E|E|E]; try discriminate Hlt.
    + subst ey. rewrite Z.min_id, Z.sub_diag. simpl (2 ^ 0).
      change (Pos.compare_cont Eq my mx) with (Pos.compare my mx) in Hlt.
      destruct (Pos.compare_spec my mx); try discriminate Hlt. lia.
    + rewrite Z.min_l by lia. rewrite Z.sub_diag. simpl (2 ^ 0).
      assert (Hp : 2 ^ 1 <= 2 ^ (ey - ex)) by (apply Z.pow_le_mono_r; lia).
      simpl (2 ^ 1) in Hp.
      assert (Hdy : Zpos (digits2_pos my) = 53) by lia.
      rewrite Hdy in Dy. simpl in Dy.
      assert (Hx : Zpos mx < 2 ^ 53).
      { eapply Z.lt_le_trans; [apply Dx|]. apply Z.pow_le_mono_r; lia. }
      simpl in Hx. nia.
  - (* x positive, y negative *)
    assert (0 < 2 ^ (ex - Z.min ex ey)) by (apply Z.pow_pos_nonneg; lia).
    assert (0 < 2 ^ (ey - Z.min ex ey)) by (apply Z.pow_pos_nonneg; lia).
    nia.
  - (* both positive *)
    destruct (Z.compare_spec ey ex) as [E|E|E]; try discriminate Hlt.
    + subst ey. rewrite Z.min_id, Z.sub_diag. simpl (2 ^ 0).
      change (Pos.compare_cont Eq my mx) with (Pos.compare my mx) in Hlt.
      destruct (Pos.compare_spec my mx); try discriminate Hlt. lia.
    + rewrite Z.min_r by lia. rewrite Z.sub_diag. simpl (2 ^ 0).
      assert (Hp : 2 ^ 1 <= 2 ^ (ex - ey)) by (apply Z.pow_le_mono_r; lia).
      simpl (2 ^ 1) in Hp.
      assert (Hdx : Zpos (digits2_pos mx) = 53) by lia.
      rewrite Hdx in Dx. simpl in Dx.
      assert (Hy : Zpos my < 2 ^ 53).
      { eapply Z.lt_le_trans; [apply Dy|]. apply Z.pow_le_mono_r; lia. }
      simpl in Hy. nia.
Qed.

(** Halving a positive binary64 value never increases it. *)
Lemma SFdiv_two_le x :
  valid_binary x = true -> SFltb (S754_zero false) x = true ->
  SFleb (SF64div x SFtwo) x = true.
Proof.
  intros Vx Hpos.
  destruct x as [sx|sx| |sx mx ex]; try discriminate Hpos;
    destruct sx; try discriminate Hpos; try reflexivity.
  apply valid_finite_inv in Vx. destruct Vx as (Ex & Px & Cx).
  pose proof (digits2_pos_bounds mx) as Dx.
  unfold SF64div, SFdiv, SFtwo, SFdiv_core_binary. cbn [Zdigits2 xorb digits2_pos Pos.succ].
  set (d := Zpos (digits2_pos mx)) in *.
  unfold prec, emin, emax, SpecFloat.emin in *.
  rewrite div_eucl_pair.
  assert (Efexp : Z.min (fexp 53 1024 (d + ex - (53 + -51))) (ex - -51)
                  = Z.max (d + ex - 55) (-1074)).
  { unfold fexp, SpecFloat.emin. lia. }
  rewrite Efexp. clear Efexp.
  destruct (Z_lt_le_dec (d + ex - 55) (-1074)) as [CB|CA].
  - rewrite Z.max_r by lia.
    destruct (Z.eq_dec ex (-1074)) as [E|E].
    + (* exponent emin: the mantissa is halved and rounded *)
      subst ex. change (-1074 - -51 - -1074) with 51.
      rewrite Z.shiftl_mul_pow2 by lia.
      change (2 ^ 51) with 2251799813685248.
      set (q := Zpos mx * 2251799813685248 / 4503599627370496).
      set (l := new_location _ _).
      assert (Hq : 0 <= q /\ 2 * q <= Zpos mx).
      { unfold q. split; [apply Z.div_pos; lia|].
        pose proof (Z.mul_div_le (Zpos mx * 2251799813685248) 4503599627370496 ltac:(lia)).
        lia. }
      pose proof (round_nearest_even_ge q l) as Hge.
      pose proof (round_nearest_even_le q l) as Hle.
      assert (Hx : Zpos mx < 2 ^ 53).
      { eapply Z.lt_le_trans; [apply Dx|]. apply Z.pow_le_mono_r; lia. }
      change (2 ^ 53) with 9007199254740992 in Hx.
      change (-1074) with emin.
      rewrite binary_round_aux_emin by (change (2 ^ 53) with 9007199254740992; lia).
      destruct (round_nearest_even q l) as [|p|p] eqn:Er; try reflexivity.
      unfold SFleb, SFcompare. rewrite Z.compare_refl.
      change (Pos.compare_cont Eq p mx) with (Pos.compare p mx).
      destruct (Pos.compare_spec p mx); try reflexivity. lia.
    + (* exponent emin + 1: the quotient is exact *)
      assert (ex = -1073) by lia. subst ex.
      change (-1073 - -51 - -1074) with 52.
      rewrite Z.shiftl_mul_pow2 by lia.
      change (2 ^ 52) with 4503599627370496.
      rewrite Z.div_mul, Z.mod_mul by lia.
      change (new_location 4503599627370496 0) with loc_Exact.
      assert (Hx : Zpos mx < 2 ^ 53).
      { eapply Z.lt_le_trans; [apply Dx|]. apply Z.pow_le_mono_r; lia. }
      change (-1074) with emin.
      rewrite binary_round_aux_emin by (cbn [round_nearest_even]; lia).
      reflexivity.
  - (* normal, exponent above emin + 1: the exponent drops by one *)
    assert (Hd : d = 53) by lia. rewrite Hd in *.
    rewrite Z.max_l by lia.
    replace (ex - -51 - (53 + ex - 55)) with 53 by lia.
    rewrite Z.shiftl_mul_pow2 by lia.
    replace (Zpos mx * 2 ^ 53) with (Zpos (xO mx) * 4503599627370496)
      by (change (2 ^ 53) with 9007199254740992; lia).
    rewrite Z.div_mul, Z.mod_mul by lia.
    change (new_location 4503599627370496 0) with loc_Exact.
    unfold binary_round_aux.
    assert (S1 : shr_fexp 53 1024 (Zpos (xO mx)) (53 + ex - 55) loc_Exact
                 = ({| shr_m := Zpos mx; shr_r := false; shr_s := false |}, ex - 1)).
    { unfold shr_fexp. cbn [Zdigits2 digits2_pos]. fold d.
      rewrite Pos2Z.inj_succ. unfold d in Hd. rewrite Hd.
      unfold fexp, SpecFloat.emin.
      replace (Z.max (Z.succ 53 + (53 + ex - 55) - 53) (3 - 1024 - 53) - (53 + ex - 55))
        with 1 by lia.
      unfold shr. cbn [iter_pos shr_1 orb]. f_equal. lia. }
    rewrite S1. cbn [shr_m loc_of_shr_record round_nearest_even].
    rewrite shr_fexp_noshift.
    2:{ cbn [Zdigits2]. unfold d in Hd. rewrite Hd.
        unfold fexp, SpecFloat.emin, prec, emax. lia. }
    cbn [shr_record_of_loc shr_m].
    replace (ex - 1 <=? 1024 - 53) with true by (symmetry; apply Z.leb_le; lia).
    unfold SFleb, SFcompare. destruct (Z.compare_spec (ex - 1) ex); try lia; reflexivity.
Qed.



(** A finite quotient of a difference has finite terms. *)
Lemma SFdiv_sub_finite a b c :
  SFfinite (SF64div (SF64sub a b) c) = true ->
  SFfinite a = true /\ SFfinite b = true.
Proof.
  destruct a as [sa|sa| |sa ma ea], b as [sb|sb| |sb mb eb];
    try (destruct sa); try (destruct sb); cbn [SF64sub SFsub];
    try (split; reflexivity);
    destruct c as [sc|sc| |sc mc ec]; cbn; try discriminate.
Qed.

(** A quotient by a finite non-zero value is NaN only for NaN. *)
Lemma SFdiv_finite_ordered x sy my ey :
  SFordered x = true -> SFordered (SF64div x (S754_finite sy my ey)) = true.
Proof.
  destruct x as [sx|sx| |sx mx ex]; try discriminate; try reflexivity.
  intros _. unfold SF64div, SFdiv, SFdiv_core_binary. rewrite div_eucl_pair.
  match goal with |- context [binary_round_aux _ _ ?s ?m ?e ?l] =>
    assert (Hm : (0 <= m)%Z);
    [| pose proof (binary_round_aux_shape s m e l Hm) as H;
       destruct (binary_round_aux prec emax s m e l); try reflexivity; contradiction ]
  end.
  apply Z.div_pos; [|lia].
  match goal with |- context [match ?s with Z0 => _ | Zpos _ => _ | Zneg _ => _ end] =>
    destruct s eqn:E; try lia end.
  apply Z.shiftl_nonneg. lia.
Qed.

End Arithmetic.

(** ** The same facts on primitive floats *)

Section PrimitiveFloats.
Local Open Scope float_scope.

Lemma is_nan_spec x : is_nan x = negb (SFordered (Prim2SF x)).
Proof. unfold is_nan. rewrite FloatAxioms.eqb_spec, SF_eqb_refl. reflexivity. Qed.

Lemma ordered_spec x : ordered x <-> SFordered (Prim2SF x) = true.
Proof.
  unfold ordered. rewrite is_nan_spec. destruct (SFordered (Prim2SF x)); simpl; split; congruence.
Qed.

Lemma is_finite_spec x : is_finite x = SFfinite (Prim2SF x).
Proof.
  unfold is_finite, is_infinity. rewrite is_nan_spec, FloatAxioms.eqb_spec, FloatAxioms.abs_spec.
  change (Prim2SF infinity) with (S754_infinity false).
  destruct (Prim2SF x) as [s|s| |s m e]; reflexivity.
Qed.

Ltac to_spec :=
  repeat rewrite ordered_spec in *;
  repeat rewrite ?FloatAxioms.ltb_spec, ?FloatAxioms.leb_spec, ?FloatAxioms.eqb_spec in *.

Lemma fl_leb_trans x y z : (x <=? y) = true -> (y <=? z) = true -> (x <=? z) = true.
Proof. to_spec. apply SF_leb_trans. Qed.

Lemma fl_ltb_leb_trans x y z : (x <? y) = true -> (y <=? z) = true -> (x <? z) = true.
Proof. to_spec. apply SF_ltb_leb_trans. Qed.

Lemma fl_leb_ltb_trans x y z : (x <=? y) = true -> (y <? z) = true -> (x <? z) = true.
Proof. to_spec. apply SF_leb_ltb_trans. Qed.

Lemma fl_ltb_trans x y z : (x <? y) = true -> (y <? z) = true -> (x <? z) = true.
Proof. to_spec. apply SF_ltb_trans. Qed.

Lemma fl_ltb_leb x y : (x <? y) = true -> (x <=? y) = true.
Proof. to_spec. apply SF_ltb_leb. Qed.

Lemma fl_ltb_irrefl x : (x <? x) = false.
Proof. to_spec. apply SF_ltb_irrefl. Qed.

Lemma fl_not_ltb_leb x y :
  ordered x -> ordered y -> (x <? y) = false -> (y <=? x) = true.
Proof. to_spec. apply SF_not_ltb_leb. Qed.

Lemma fl_not_leb_ltb x y :
  ordered x -> ordered y -> (x <=? y) = false -> (y <? x) = true.
Proof. to_spec. apply SF_not_leb_ltb. Qed.

Lemma fl_leb_not_ltb x y : (x <=? y) = true -> (y <? x) = false.
Proof. to_spec. apply SF_leb_not_ltb. Qed.

Lemma fl_ltb_not_leb x y : (x <? y) = true -> (y <=? x) = false.
Proof. to_spec. apply SF_ltb_not_leb. Qed.

Lemma fl_leb_refl x : ordered x -> (x <=? x) = true.
Proof. to_spec. apply SF_leb_refl. Qed.

Lemma fl_leb_ordered_l x y : (x <=? y) = true -> ordered x.
Proof. to_spec. apply SF_leb_ordered_l. Qed.

Lemma fl_leb_ordered_r x y : (x <=? y) = true -> ordered y.
Proof. to_spec. apply SF_leb_ordered_r. Qed.

Lemma fl_ltb_ordered_l x y : (x <? y) = true -> ordered x.
Proof. to_spec. apply SF_ltb_ordered_l. Qed.

Lemma fl_ltb_ordered_r x y : (x <? y) = true -> ordered y.
Proof. to_spec. apply SF_ltb_ordered_r. Qed.

Lemma fl_finite_ordered x : is_finite x = true -> ordered x.
Proof. rewrite is_finite_spec, ordered_spec. apply SF_finite_ordered. Qed.

(** [t < tc] makes the argument [tc - t] of the logarithm positive. *)
Lemma fl_sub_pos t tc : (t <? tc) = true -> (tc - t >? 0) = true.
Proof.
  rewrite !FloatAxioms.ltb_spec, FloatAxioms.sub_spec. change (Prim2SF 0) with (S754_zero false).
  apply SFsub_pos; apply Prim2SF_valid.
Qed.

(** [half = peak_val / 2.0] does not exceed a positive [peak_val]. *)
Lemma fl_half_le v : (v >? 0) = true -> (v >=? v / 2) = true.
Proof.
  rewrite FloatAxioms.ltb_spec, FloatAxioms.leb_spec, FloatAxioms.div_spec.
  change (Prim2SF 0) with (S754_zero false). change (Prim2SF 2) with SFtwo.
  apply SFdiv_two_le. apply Prim2SF_valid.
Qed.

Lemma ordered_zero : ordered 0.
Proof. reflexivity. Qed.

(** [half] is NaN only for a NaN [peak_val]. *)
Lemma fl_half_ordered v : ordered v -> ordered (v / 2).
Proof.
  rewrite !ordered_spec, FloatAxioms.div_spec. change (Prim2SF 2) with SFtwo.
  apply SFdiv_finite_ordered.
Qed.

End PrimitiveFloats.

Section LengthConversion.
Local Open Scope Z_scope.

(** The float of a non-zero length is not zero. *)
Lemma float_of_len_nonzero n :
  (0 < n)%nat -> (float_of_len n =? 0)%float = false.
Proof.
  intros Hn. unfold float_of_len.
  destruct (Z.of_nat n) as [|p|p] eqn:E; try lia.
  unfold binary_normalize.
  pose proof (binary_round_bounded false p 0
                ltac:(unfold emin, SpecFloat.emin, prec, emax; lia)) as H.
  destruct (binary_round prec emax false p 0) as [s|s| |s m e]; try contradiction.
  - subst s. reflexivity.
  - destruct H as (-> & Hm & He).
    unfold SF2Prim.
    rewrite FloatAxioms.eqb_spec, Z_ldexp_spec, FloatAxioms.of_uint63_spec, Uint63.of_Z_spec.
    change (Prim2SF 0%float) with (S754_zero false).
    rewrite Z.mod_small by (change wB with (2 ^ 63); change (2 ^ 53) with 9007199254740992 in Hm;
                            change (2 ^ 63) with 9223372036854775808; lia).
    unfold binary_normalize.
    pose proof (binary_round_bounded false m 0
                  ltac:(unfold emin, SpecFloat.emin, prec, emax; lia)) as H1.
    destruct (binary_round prec emax false m 0) as [s1|s1| |s1 m1 e1]; try contradiction.
    + subst s1. reflexivity.
    + destruct H1 as (-> & Hm1 & He1). unfold SFldexp.
      pose proof (digits2_pos_bounds p). pose proof (digits2_pos_bounds m).
      assert (Hlow : emin <= e1 + e).
      { unfold fexp, emin, SpecFloat.emin, prec, emax in *. lia. }
      pose proof (binary_round_nonzero false m1 (e1 + e) Hlow) as H2.
      destruct (binary_round prec emax false m1 (e1 + e)); try contradiction; subst; reflexivity.
Qed.

End LengthConversion.

(** * Part III: the Window Builder *)

Section WindowBuilder.

Lemma bounds_present intervals :
  bounds intervals = (map fst (present intervals), map snd (present intervals)).
Proof.
  induction intervals as [|[[l r]|] rest IH]; simpl; try assumption; try reflexivity.
  rewrite IH. reflexivity.
Qed.

Lemma present_In intervals i : In i (present intervals) <-> In (Some i) intervals.
Proof.
  unfold present. rewrite in_flat_map. split.
  - intros [[j|] [Hin Hj]]; simpl in Hj; [|contradiction].
    destruct Hj as [->|[]]. assumption.
  - intros H. exists (Some i). split; [assumption|left; reflexivity].
Qed.

(** [min] is below every item when no item is NaN. *)
Lemma py_min_le xs : forall x,
  Forall ordered (x :: xs) ->
  Forall (fun y => (py_min x xs <=? y) = true) (x :: xs).
Proof.
  induction xs as [|a xs IH]; intros x H.
  - constructor; [|constructor]. apply fl_leb_refl. inversion H; assumption.
  - inversion H as [|? ? Hx Hrest]; subst. inversion Hrest as [|? ? Ha Hxs]; subst.
    change (py_min x (a :: xs)) with (py_min (if a <? x then a else x) xs).
    set (x' := if a <? x then a else x).
    assert (Hx' : ordered x') by (unfold x'; destruct (a <? x); assumption).
    assert (Hle : (x' <=? x) = true /\ (x' <=? a) = true).
    { unfold x'. destruct (a <? x) eqn:E.
      - split; [apply fl_ltb_leb; assumption|apply fl_leb_refl; assumption].
      - split; [apply fl_leb_refl; assumption|apply fl_not_ltb_leb; assumption]. }
    specialize (IH x' (Forall_cons _ Hx' Hxs)).
    inversion IH as [|? ? H0 Htail]; subst.
    constructor; [|constructor]; try assumption.
    + apply fl_leb_trans with x'; tauto.
    + apply fl_leb_trans with x'; tauto.
Qed.

(** [max] is above every item when no item is NaN. *)
Lemma py_max_ge xs : forall x,
  Forall ordered (x :: xs) ->
  Forall (fun y => (y <=? py_max x xs) = true) (x :: xs).
Proof.
  induction xs as [|a xs IH]; intros x H.
  - constructor; [|constructor]. apply fl_leb_refl. inversion H; assumption.
  - inversion H as [|? ? Hx Hrest]; subst. inversion Hrest as [|? ? Ha Hxs]; subst.
    change (py_max x (a :: xs)) with (py_max (if a >? x then a else x) xs).
    set (x' := if a >? x then a else x).
    assert (Hx' : ordered x') by (unfold x'; destruct (a >? x); assumption).
    assert (Hle : (x <=? x') = true /\ (a <=? x') = true).
    { unfold x'. destruct (a >? x) eqn:E.
      - split; [apply fl_ltb_leb; assumption|apply fl_leb_refl; assumption].
      - split; [apply fl_leb_refl; assumption|apply fl_not_ltb_leb; assumption]. }
    specialize (IH x' (Forall_cons _ Hx' Hxs)).
    inversion IH as [|? ? H0 Htail]; subst.
    constructor; [|constructor]; try assumption.
    + apply fl_leb_trans with x'; tauto.
    + apply fl_leb_trans with x'; tauto.
Qed.

(** C8, as the code has it.  For every list of optional intervals with at
    least one present, each present interval [(l, r)] having [l <= r]:
    [build_window] returns a window with [t_env_min <= t_env_max] and
    [tc_ov_min <= tc_ov_max]; when the raw overlap is empty
    ([max(lefts) > min(rights)]) the overlap bounds are exactly the
    envelope bounds, and otherwise they are the raw overlap. *)
Theorem build_window_ordered intervals :
  (exists it, In (Some it) intervals) ->
  (forall l r, In (Some (l, r)) intervals -> (l <=? r) = true) ->
  exists t_env_min t_env_max tc_ov_min tc_ov_max,
    build_window intervals = Some (t_env_min, t_env_max, tc_ov_min, tc_ov_max) /\
    (t_env_min <=? t_env_max) = true /\
    (tc_ov_min <=? tc_ov_max) = true /\
    exists lo hi,
      raw_overlap intervals = Some (lo, hi) /\
      ((lo >? hi) = true -> tc_ov_min = t_env_min /\ tc_ov_max = t_env_max) /\
      ((lo <=? hi) = true -> tc_ov_min = lo /\ tc_ov_max = hi).
Proof.
  intros [it Hit] Hwf.
  unfold build_window, raw_overlap. rewrite bounds_present.
  assert (Hall : Forall (fun i => (fst i <=? snd i) = true) (present intervals)).
  { apply Forall_forall. intros [l r] Hin. apply present_In in Hin. apply Hwf. assumption. }
  apply present_In in Hit.
  destruct (present intervals) as [|[l0 r0] ps]; [contradiction|]. clear Hit Hwf.
  cbn [map fst snd].
  assert (Hls : Forall ordered (l0 :: map fst ps)).
  { change (l0 :: map fst ps) with (map fst ((l0, r0) :: ps)).
    apply Forall_map. eapply Forall_impl; [|exact Hall].
    intros i Hi. eapply fl_leb_ordered_l; exact Hi. }
  assert (Hrs : Forall ordered (r0 :: map snd ps)).
  { change (r0 :: map snd ps) with (map snd ((l0, r0) :: ps)).
    apply Forall_map. eapply Forall_impl; [|exact Hall].
    intros i Hi. eapply fl_leb_ordered_r; exact Hi. }
  pose proof (py_min_le _ _ Hls) as Hmin. pose proof (py_max_ge _ _ Hrs) as Hmax.
  inversion Hmin as [|? ? Hmin0 _]; subst. inversion Hmax as [|? ? Hmax0 _]; subst.
  inversion Hall as [|? ? H00 _]; subst. cbn [fst snd] in H00.
  assert (Henv : (py_min l0 (map fst ps) <=? py_max r0 (map snd ps)) = true).
  { apply fl_leb_trans with l0; [assumption|].
    apply fl_leb_trans with r0; assumption. }
  destruct (py_max l0 (map fst ps) <=? py_min r0 (map snd ps)) eqn:Eov; cbn [negb].
  - do 4 eexists. split; [reflexivity|]. split; [assumption|]. split; [assumption|].
    do 2 eexists. split; [reflexivity|]. split.
    + intros Hgt. apply fl_ltb_not_leb in Hgt. congruence.
    + intros _. split; reflexivity.
  - do 4 eexists. split; [reflexivity|]. split; [assumption|]. split; [assumption|].
    do 2 eexists. split; [reflexivity|]. split.
    + intros _. split; reflexivity.
    + intros Hle. congruence.
Qed.

End WindowBuilder.

(** [build_window_ordered] on two overlapping intervals. *)
Lemma build_window_ordered_witness :
  exists t_env_min t_env_max tc_ov_min tc_ov_max,
    build_window [Some (1, 3); None; Some (2, 4)]
      = Some (t_env_min, t_env_max, tc_ov_min, tc_ov_max) /\
    (t_env_min <=? t_env_max) = true /\
    (tc_ov_min <=? tc_ov_max) = true /\
    exists lo hi,
      raw_overlap [Some (1, 3); None; Some (2, 4)] = Some (lo, hi) /\
      ((lo >? hi) = true -> tc_ov_min = t_env_min /\ tc_ov_max = t_env_max) /\
      ((lo <=? hi) = true -> tc_ov_min = lo /\ tc_ov_max = hi).
Proof.
  apply (build_window_ordered [Some (1, 3); None; Some (2, 4)]).
  - exists (1, 3). left. reflexivity.
  - intros l r [H|[H|[H|[]]]]; inversion H; subst; reflexivity.
Defined.

(** C8 as stated fails on an interval given as [(2, 1)], the bounds of a
    peak over temperatures recorded in decreasing order: the interval is
    present, and the envelope comes out as [t_env_min = 2 > 1 = t_env_max],
    the overlap likewise. *)
Lemma build_window_inverted_interval :
  build_window [Some (2, 1)] = Some (2, 1, 2, 1) /\ (2 <=? 1) = false.
Proof. split; reflexivity. Qed.

(** * Part IV: the Peak Detector *)

(** ** Exceptions and indexing *)

Lemma bind_Ok {A B : Type} (r : result A) (k : A -> result B) b :
  bind r k = Ok b <-> exists a, r = Ok a /\ k a = Ok b.
Proof.
  destruct r as [a|e]; simpl; split.
  - intros H. exists a. split; [reflexivity|assumption].
  - intros [a' [Ha Hk]]. inversion Ha; subst. assumption.
  - discriminate.
  - intros [a' [Ha _]]. discriminate.
Qed.

Lemma get_Ok {A : Type} (l : list A) i a : get l i = Ok a <-> nth_error l i = Some a.
Proof.
  unfold get. destruct (nth_error l i); split; intros H; inversion H; reflexivity.
Qed.

Lemma get_lt {A : Type} (l : list A) i :
  (i < length l)%nat -> exists a, get l i = Ok a.
Proof.
  intros H. unfold get. destruct (nth_error l i) as [a|] eqn:E.
  - exists a. reflexivity.
  - apply nth_error_None in E. lia.
Qed.

Lemma get_Ok_lt {A : Type} (l : list A) i a : get l i = Ok a -> (i < length l)%nat.
Proof.
  intros H. apply get_Ok in H. apply nth_error_Some. congruence.
Qed.

Ltac inv_bind H :=
  let a := fresh "a" in let Ha := fresh "Ha" in
  apply bind_Ok in H; destruct H as [a [Ha H]].

(** ** The two walks *)

Section Walks.
Variable values : list float.
Variable half : float.

Lemma walk_left_spec : forall idx,
  (idx <= length values)%nat ->
  exists lb, walk_left values half idx = Ok lb /\ (lb <= idx)%nat /\
    (forall j, (lb <= j < idx)%nat -> exists v, get values j = Ok v /\ (v >=? half) = true) /\
    (lb = 0%nat \/ exists v, get values (lb - 1) = Ok v /\ (v >=? half) = false).
Proof.
  induction idx as [|prev IH]; intros Hlen.
  - exists 0%nat. simpl. repeat split; lia.
  - destruct (get_lt values prev ltac:(lia)) as [v Hv].
    cbn [walk_left]. rewrite Hv. cbn [bind].
    destruct (v >=? half) eqn:E.
    + destruct (IH ltac:(lia)) as (lb & Hw & Hle & Hin & Hstop).
      exists lb. repeat split; try assumption; try lia.
      intros j Hj. destruct (Nat.eq_dec j prev) as [->|Hne].
      * exists v. split; assumption.
      * apply Hin. lia.
    + exists (S prev). repeat split; try reflexivity; try lia.
      right. exists v. replace (S prev - 1)%nat with prev by lia. split; assumption.
Qed.

Lemma walk_right_spec : forall room right_idx,
  (right_idx + room < length values)%nat ->
  exists rb, walk_right values half room right_idx = Ok rb /\
    (right_idx <= rb <= right_idx + room)%nat /\
    (forall j, (right_idx < j <= rb)%nat -> exists v, get values j = Ok v /\ (v >=? half) = true) /\
    (rb = (right_idx + room)%nat \/ exists v, get values (rb + 1) = Ok v /\ (v >=? half) = false).
Proof.
  induction room as [|room IH]; intros right_idx Hlen.
  - exists right_idx. simpl. repeat split; lia.
  - destruct (get_lt values (right_idx + 1) ltac:(lia)) as [v Hv].
    cbn [walk_right]. rewrite Hv. cbn [bind].
    destruct (v >=? half) eqn:E.
    + destruct (IH (right_idx + 1)%nat ltac:(lia)) as (rb & Hw & Hle & Hin & Hstop).
      exists rb. repeat split; try assumption; try lia.
      * intros j Hj. destruct (Nat.eq_dec j (right_idx + 1)) as [->|Hne].
        -- exists v. split; assumption.
        -- apply Hin. lia.
      * destruct Hstop as [->|Hstop]; [left; lia|right; assumption].
    + exists right_idx. repeat split; try reflexivity; try lia.
      right. exists v. split; assumption.
Qed.

(** The two walks end: both bounds exist, they enclose the peak, every
    sample strictly between a bound and the peak is at least [half], and
    each walk stopped at the end of the series or at a sample that is not
    [>= half]. *)
Lemma half_max_bounds_spec idx :
  (idx < length values)%nat ->
  exists lb rb, half_max_bounds values half idx = Ok (lb, rb) /\
    (lb <= idx <= rb)%nat /\ (rb < length values)%nat /\
    (forall j, (lb <= j <= rb)%nat -> j <> idx ->
       exists v, get values j = Ok v /\ (v >=? half) = true) /\
    (lb = 0%nat \/ exists v, get values (lb - 1) = Ok v /\ (v >=? half) = false) /\
    (rb = (length values - 1)%nat \/
     exists v, get values (rb + 1) = Ok v /\ (v >=? half) = false).
Proof.
  intros Hidx. unfold half_max_bounds.
  destruct (walk_left_spec idx ltac:(lia)) as (lb & Hl & Hlle & Hlin & Hlstop).
  destruct (walk_right_spec (length values - 1 - idx) idx ltac:(lia))
    as (rb & Hr & Hrle & Hrin & Hrstop).
  rewrite Hl. cbn [bind]. rewrite Hr. cbn [bind].
  exists lb, rb. repeat split; try assumption; try lia.
  - intros j Hj Hne. destruct (Nat.lt_ge_cases j idx); [apply Hlin|apply Hrin]; lia.
  - destruct Hrstop as [->|Hs]; [left; lia|right; assumption].
Qed.

End Walks.

(** ** Candidates, ranking, intervals *)

Section PeakProperties.

Variable fsum : list float -> float.

(** ** Candidates *)

Lemma is_peak_true_ge values n i : is_peak fsum values n i = Ok true -> (5 <= i)%nat.
Proof.
  unfold is_peak. intros H.
  inv_bind H. inv_bind H. inv_bind H.
  destruct (a0 && a1 && (a >? 0)); [|discriminate].
  destruct (Nat.ltb i 5) eqn:E; [discriminate|].
  apply Nat.ltb_ge in E. assumption.
Qed.

Lemma collect_peaks_In values n : forall idxs peaks i,
  collect_peaks fsum values n idxs = Ok peaks -> In i peaks ->
  In i idxs /\ is_peak fsum values n i = Ok true.
Proof.
  induction idxs as [|j rest IH]; intros peaks i H Hin; simpl in H.
  - inversion H; subst. contradiction.
  - inv_bind H. inv_bind H. inversion H; subst; clear H.
    destruct a.
    + destruct Hin as [->|Hin].
      * split; [left; reflexivity|assumption].
      * destruct (IH _ _ Ha0 Hin). split; [right|]; assumption.
    + destruct (IH _ _ Ha0 Hin). split; [right|]; assumption.
Qed.

(** ** Ranking *)

Lemma insert_desc_In x : forall sorted y, In y (insert_desc x sorted) <-> y = x \/ In y sorted.
Proof.
  induction sorted as [|z rest IH]; intros y; simpl.
  - intuition.
  - destruct (snd z <? snd x); simpl; [intuition|]. rewrite IH. intuition.
Qed.

Lemma sort_desc_In keyed y : In y (sort_desc keyed) <-> In y keyed.
Proof.
  unfold sort_desc.
  assert (G : forall acc, In y (fold_left (fun sorted x => insert_desc x sorted) keyed acc)
                          <-> In y keyed \/ In y acc).
  { induction keyed as [|x rest IH]; intros acc; simpl.
    - intuition.
    - rewrite IH, insert_desc_In. intuition. }
  rewrite G. simpl. intuition.
Qed.

Lemma keyed_fst (values : list float) : forall peaks keyed,
  map_result (fun idx => v <- get values idx ;; Ok (idx, v)) peaks = Ok keyed ->
  map fst keyed = peaks /\ Forall (fun kv => get values (fst kv) = Ok (snd kv)) keyed.
Proof.
  induction peaks as [|p rest IH]; intros keyed H; simpl in H.
  - inversion H; subst. split; [reflexivity|constructor].
  - inv_bind H. inv_bind H. inversion H; subst; clear H.
    inv_bind Ha. inversion Ha; subst; clear Ha.
    destruct (IH _ Ha0) as [E F]. split; [simpl; congruence|].
    constructor; assumption.
Qed.

Lemma sort_by_value_In values peaks sorted i :
  sort_by_value values peaks = Ok sorted -> In i sorted -> In i peaks.
Proof.
  unfold sort_by_value. intros H Hin. inv_bind H. inversion H; subst; clear H.
  apply keyed_fst in Ha. destruct Ha as [E _]. rewrite <- E.
  apply in_map_iff in Hin. destruct Hin as [kv [Hk Hin]].
  apply (proj1 (sort_desc_In _ _)) in Hin. apply in_map_iff. exists kv. split; assumption.
Qed.

Lemma dedup_loop_In : forall peaks acc i,
  In i (dedup_loop peaks acc) -> In i peaks \/ In i acc.
Proof.
  induction peaks as [|p rest IH]; intros acc i H; simpl in H.
  - right. assumption.
  - destruct (existsb (Nat.eqb p) acc).
    + destruct (IH _ _ H); [left; right|right]; assumption.
    + destruct (IH _ _ H) as [H1|H1]; [left; right; assumption|].
      apply in_app_or in H1. destruct H1 as [H1|[->|[]]]; [right; assumption|left; left; reflexivity].
Qed.

Lemma ranked_peaks_In values peaks i :
  ranked_peaks fsum values = Ok peaks -> In i peaks ->
  exists candidates, peak_candidates fsum values = Ok candidates /\ In i candidates.
Proof.
  unfold ranked_peaks. intros H Hin. inv_bind H. inv_bind H. inversion H; subst; clear H.
  exists a. split; [assumption|].
  apply dedup_loop_In in Hin. destruct Hin as [Hin|[]].
  eapply sort_by_value_In; eassumption.
Qed.

Lemma peak_candidates_In values candidates i :
  peak_candidates fsum values = Ok candidates -> In i candidates ->
  (i < length values)%nat /\
  (length values = 1%nat \/ is_peak fsum values (length values) i = Ok true).
Proof.
  unfold peak_candidates. intros H Hin.
  destruct (Nat.eqb (length values) 1) eqn:E.
  - apply Nat.eqb_eq in E. inversion H; subst. destruct Hin as [<-|[]]. lia.
  - destruct (collect_peaks_In _ _ _ _ _ H Hin) as [Hs Hp].
    apply in_seq in Hs. split; [lia|right; assumption].
Qed.

Lemma ranked_peaks_ge_5 values peaks idx :
  length values <> 1%nat ->
  ranked_peaks fsum values = Ok peaks ->
  In idx peaks -> (5 <= idx < length values)%nat.
Proof.
  intros Hn H Hin.
  destruct (ranked_peaks_In _ _ _ H Hin) as [c [Hc Hic]].
  destruct (peak_candidates_In _ _ _ Hc Hic) as [Hlt [E|Hp]]; [contradiction|].
  apply is_peak_true_ge in Hp. lia.
Qed.

(** C5, as the code has it.  For every series whose length is not 1,
    every peak the detector keeps after ranking, and so every peak it
    gives a slot, is at an index of at least 5 (and inside the series),
    whatever its value.  (A series of length 1 is the special case of the
    source: index 0 is its peak.) *)
Theorem peaks_from_index_5 values peaks :
  length values <> 1%nat ->
  ranked_peaks fsum values = Ok peaks ->
  Forall (fun idx => (5 <= idx < length values)%nat) peaks.
Proof.
  intros Hn H. apply Forall_forall. intros idx Hin.
  eapply ranked_peaks_ge_5; eassumption.
Qed.

(** ** Totality *)

Lemma strong_enough_total values mean_left i : forall ks,
  (i < length values)%nat -> exists b, strong_enough values mean_left i ks = Ok b.
Proof.
  intros ks Hi. induction ks as [|k rest IH]; simpl.
  - exists true. reflexivity.
  - destruct (get_lt values (i - k) ltac:(lia)) as [v Hv]. rewrite Hv. cbn [bind].
    destruct (v <=? mean_left); [exists false; reflexivity|apply IH].
Qed.

(** The mean of the left slice is computed without error: at an index of
    at least 5 the slice has [i >= 5] elements. *)
Lemma mean_left_defined values i :
  (5 <= i <= length values)%nat ->
  let left_slice := firstn i values in
  length left_slice = i /\
  (float_of_len (length left_slice) =? 0) = false /\
  py_div (fsum left_slice) (float_of_len (length left_slice))
    = Ok (fsum left_slice / float_of_len (length left_slice)).
Proof.
  intros Hi left_slice.
  assert (Hlen : length left_slice = i) by (unfold left_slice; rewrite length_firstn; lia).
  assert (Hnz : (float_of_len (length left_slice) =? 0) = false).
  { rewrite Hlen. apply float_of_len_nonzero. lia. }
  repeat split; try assumption.
  unfold py_div. rewrite Hnz. reflexivity.
Qed.

Lemma is_peak_total values i :
  (i < length values)%nat ->
  exists b, is_peak fsum values (length values) i = Ok b.
Proof.
  intros Hi. unfold is_peak.
  destruct (get_lt values i Hi) as [v Hv]. rewrite Hv. cbn [bind].
  assert (Hl : exists b, (if Nat.eqb i 0 then Ok true
                          else p <- get values (i - 1) ;; Ok (v >=? p)) = Ok b).
  { destruct (Nat.eqb i 0); [exists true; reflexivity|].
    destruct (get_lt values (i - 1) ltac:(lia)) as [p Hpv]. rewrite Hpv. cbn [bind].
    eexists; reflexivity. }
  destruct Hl as [left_ok ->]. cbn [bind].
  assert (Hr : exists b, (if Nat.eqb i (length values - 1) then Ok true
                          else q <- get values (i + 1) ;; Ok (v >=? q)) = Ok b).
  { destruct (Nat.eqb i (length values - 1)) eqn:E; [exists true; reflexivity|].
    apply Nat.eqb_neq in E.
    destruct (get_lt values (i + 1) ltac:(lia)) as [q Hq]. rewrite Hq. cbn [bind].
    eexists; reflexivity. }
  destruct Hr as [right_ok ->]. cbn [bind].
  destruct (left_ok && right_ok && (v >? 0)); [|exists false; reflexivity].
  destruct (Nat.ltb i 5) eqn:E5; [exists false; reflexivity|].
  apply Nat.ltb_ge in E5.
  destruct (mean_left_defined values i ltac:(lia)) as (_ & _ & ->). cbn [bind].
  apply strong_enough_total. assumption.
Qed.

Lemma collect_peaks_total values : forall idxs,
  Forall (fun i => (i < length values)%nat) idxs ->
  exists peaks, collect_peaks fsum values (length values) idxs = Ok peaks.
Proof.
  intros idxs H. induction H as [|i rest Hi Hrest IH]; simpl.
  - eexists; reflexivity.
  - destruct (is_peak_total values i Hi) as [b ->]. cbn [bind].
    destruct IH as [peaks ->]. cbn [bind]. eexists; reflexivity.
Qed.

Lemma peak_candidates_total values :
  exists peaks, peak_candidates fsum values = Ok peaks.
Proof.
  unfold peak_candidates.
  destruct (Nat.eqb (length values) 1); [eexists; reflexivity|].
  apply collect_peaks_total.
  apply Forall_forall. intros i Hi. apply in_seq in Hi. lia.
Qed.

Lemma keyed_total (values : list float) : forall peaks,
  Forall (fun i => (i < length values)%nat) peaks ->
  exists keyed, map_result (fun idx => v <- get values idx ;; Ok (idx, v)) peaks = Ok keyed.
Proof.
  intros peaks H. induction H as [|i rest Hi Hrest IH]; simpl.
  - eexists; reflexivity.
  - destruct (get_lt values i Hi) as [v ->]. cbn [bind].
    destruct IH as [keyed ->]. cbn [bind]. eexists; reflexivity.
Qed.

Lemma ranked_peaks_total values :
  exists peaks, ranked_peaks fsum values = Ok peaks.
Proof.
  unfold ranked_peaks.
  destruct (peak_candidates_total values) as [c Hc]. rewrite Hc. cbn [bind].
  unfold sort_by_value.
  destruct (keyed_total values c) as [keyed ->].
  { apply Forall_forall. intros i Hi.
    destruct (peak_candidates_In _ _ _ Hc Hi). assumption. }
  cbn [bind]. eexists; reflexivity.
Qed.

Lemma ranked_peaks_lt values peaks i :
  ranked_peaks fsum values = Ok peaks -> In i peaks -> (i < length values)%nat.
Proof.
  intros H Hin. destruct (ranked_peaks_In _ _ _ H Hin) as [c [Hc Hic]].
  destruct (peak_candidates_In _ _ _ Hc Hic). assumption.
Qed.

Lemma slot_interval_total values temps idx :
  length temps = length values -> (idx < length values)%nat ->
  exists r, slot_interval values temps idx = Ok r.
Proof.
  intros Hlen Hidx. unfold slot_interval.
  destruct (get_lt values idx Hidx) as [v ->]. cbn [bind].
  destruct (v <=? 0); [eexists; reflexivity|].
  destruct (half_max_bounds_spec values (v / 2) idx Hidx) as (lb & rb & -> & Hle & Hrb & _).
  cbn [bind].
  destruct (get_lt temps lb ltac:(lia)) as [tl ->]. cbn [bind].
  destruct (get_lt temps rb ltac:(lia)) as [tr ->]. cbn [bind].
  eexists; reflexivity.
Qed.

(** C10.  On two sequences of equal length the detector raises nothing:
    at every index [i >= 5], the only ones where the strength check
    computes [mean_left], the slice [values[:i]] has [i] elements, its
    length is a non-zero float and the division returns; and the whole
    function returns a result. *)
Theorem two_peak_half_intervals_total values temps :
  length temps = length values ->
  (forall i, (5 <= i < length values)%nat ->
     let left_slice := firstn i values in
     length left_slice = i /\
     (float_of_len (length left_slice) =? 0) = false /\
     py_div (fsum left_slice) (float_of_len (length left_slice))
       = Ok (fsum left_slice / float_of_len (length left_slice))) /\
  exists out, two_peak_half_intervals fsum values temps = Ok out.
Proof.
  intros Hlen. split.
  - intros i Hi. apply mean_left_defined. lia.
  - unfold two_peak_half_intervals.
    destruct (Nat.eqb (length values) 0); [eexists; reflexivity|].
    destruct (ranked_peaks_total values) as [peaks Hpk]. rewrite Hpk. cbn [bind].
    pose proof (ranked_peaks_lt values peaks) as Hlt.
    destruct peaks as [|idx0 [|idx1 rest]]; cbn [firstn].
    + eexists; reflexivity.
    + destruct (slot_interval_total values temps idx0 Hlen) as [r0 ->].
      { apply Hlt; [assumption|left; reflexivity]. }
      cbn [bind]. eexists; reflexivity.
    + destruct (slot_interval_total values temps idx0 Hlen) as [r0 ->].
      { apply Hlt; [assumption|left; reflexivity]. }
      destruct (slot_interval_total values temps idx1 Hlen) as [r1 ->].
      { apply Hlt; [assumption|right; left; reflexivity]. }
      cbn [bind]. eexists; reflexivity.
Qed.

(** ** Half-maximum intervals *)

Lemma is_peak_true_pos values n i :
  is_peak fsum values n i = Ok true ->
  exists v, get values i = Ok v /\ (v >? 0) = true.
Proof.
  unfold is_peak. intros H. inv_bind H. inv_bind H. inv_bind H.
  exists a. split; [assumption|].
  destruct (a >? 0); [reflexivity|].
  rewrite andb_false_r in H. discriminate.
Qed.

(** Each slot that holds an interval holds the one of the peak of its
    rank. *)
Lemma two_peak_slot values temps out slot iv :
  two_peak_half_intervals fsum values temps = Ok out ->
  nth_error out slot = Some (Some iv) ->
  exists peaks idx,
    ranked_peaks fsum values = Ok peaks /\ (slot < 2)%nat /\
    nth_error peaks slot = Some idx /\
    slot_interval values temps idx = Ok (Some iv).
Proof.
  unfold two_peak_half_intervals. intros H Hs.
  destruct (Nat.eqb (length values) 0).
  { inversion H; subst. destruct slot as [|[|[|]]]; discriminate. }
  inv_bind H. rename a into peaks. exists peaks.
  destruct peaks as [|idx0 [|idx1 rest]]; cbn [firstn] in H.
  - inversion H; subst. destruct slot as [|[|[|]]]; discriminate.
  - inv_bind H. inversion H; subst; clear H.
    destruct slot as [|[|[|]]]; try discriminate.
    inversion Hs; subst. exists idx0. repeat split; try assumption; lia.
  - inv_bind H. inv_bind H. inversion H; subst; clear H.
    destruct slot as [|[|[|]]]; try discriminate; inversion Hs; subst.
    + exists idx0. repeat split; try assumption; lia.
    + exists idx1. repeat split; try assumption; lia.
Qed.

(** C7, as the code has it.  For every interval the detector returns in a
    slot, with [idx] the peak of that rank, [half = values[idx] / 2] and
    [(left_bound, right_bound)] the result of the two walks: the interval
    is [(temps[left_bound], temps[right_bound])];
    [values[left_bound] >= half] and [values[right_bound] >= half] when
    the peak value is not NaN, which holds for every series of length
    other than 1; [left_bound = 0] or [values[left_bound - 1] >= half] is
    false, and then [values[left_bound - 1] < half] when neither that
    sample nor the peak value is NaN; symmetrically on the right with
    [right_bound = n - 1] and [values[right_bound + 1]]. *)
Theorem half_max_interval_bounds values temps out slot iv :
  two_peak_half_intervals fsum values temps = Ok out ->
  nth_error out slot = Some (Some iv) ->
  exists peaks idx peak_val lb rb vl vr,
    ranked_peaks fsum values = Ok peaks /\
    nth_error peaks slot = Some idx /\
    get values idx = Ok peak_val /\
    (length values <> 1%nat -> ordered peak_val) /\
    let half := peak_val / 2 in
    half_max_bounds values half idx = Ok (lb, rb) /\
    iv = (nth lb temps 0, nth rb temps 0) /\
    (lb <= idx <= rb)%nat /\ (rb < length values)%nat /\
    get values lb = Ok vl /\ get values rb = Ok vr /\
    (ordered peak_val -> (vl >=? half) = true /\ (vr >=? half) = true) /\
    (lb = 0%nat \/
     exists v, get values (lb - 1) = Ok v /\ (v >=? half) = false /\
               (ordered peak_val -> ordered v -> (v <? half) = true)) /\
    (rb = (length values - 1)%nat \/
     exists v, get values (rb + 1) = Ok v /\ (v >=? half) = false /\
               (ordered peak_val -> ordered v -> (v <? half) = true)).
Proof.
  intros Hout Hslot.
  destruct (two_peak_slot _ _ _ _ _ Hout Hslot) as (peaks & idx & Hpk & _ & Hnth & Hsl).
  assert (Hin : In idx peaks) by (eapply nth_error_In; eassumption).
  pose proof (ranked_peaks_lt _ _ _ Hpk Hin) as Hidx.
  unfold slot_interval in Hsl. inv_bind Hsl. rename a into peak_val.
  destruct (peak_val <=? 0) eqn:Epos; [discriminate|].
  destruct (half_max_bounds_spec values (peak_val / 2) idx Hidx)
    as (lb & rb & Hb & Hle & Hrb & Hmid & Hlstop & Hrstop).
  rewrite Hb in Hsl. cbn [bind] in Hsl. inv_bind Hsl. inv_bind Hsl.
  inversion Hsl; subst iv; clear Hsl.
  destruct (get_lt values lb ltac:(lia)) as [vl Hvl].
  destruct (get_lt values rb ltac:(lia)) as [vr Hvr].
  exists peaks, idx, peak_val, lb, rb, vl, vr.
  assert (Hhalf : ordered peak_val -> (peak_val >=? peak_val / 2) = true).
  { intros Ho. apply fl_half_le. apply fl_not_leb_ltb; [assumption|apply ordered_zero|assumption]. }
  assert (Hstrict : forall v, (v >=? peak_val / 2) = false ->
                      ordered peak_val -> ordered v -> (v <? peak_val / 2) = true).
  { intros v Hv Ho Hov. apply fl_not_leb_ltb; [apply fl_half_ordered|..]; assumption. }
  repeat split; try assumption; try lia.
  - intros Hn.
    destruct (ranked_peaks_In _ _ _ Hpk Hin) as [c [Hc Hic]].
    destruct (peak_candidates_In _ _ _ Hc Hic) as [_ [E|Hp]]; [contradiction|].
    destruct (is_peak_true_pos _ _ _ Hp) as [v [Hv Hgt]].
    rewrite Ha in Hv. inversion Hv; subst. eapply fl_ltb_ordered_r; eassumption.
  - apply get_Ok in Ha0, Ha1.
    rewrite (nth_error_nth _ _ 0 Ha0), (nth_error_nth _ _ 0 Ha1). reflexivity.
  - destruct (Nat.eq_dec lb idx) as [->|Hne].
    + rewrite Ha in Hvl. inversion Hvl; subst. apply Hhalf. assumption.
    + destruct (Hmid lb ltac:(lia) Hne) as [v [Hv Hge]].
      rewrite Hvl in Hv. inversion Hv; subst. assumption.
  - destruct (Nat.eq_dec rb idx) as [->|Hne].
    + rewrite Ha in Hvr. inversion Hvr; subst. apply Hhalf. assumption.
    + destruct (Hmid rb ltac:(lia) Hne) as [v [Hv Hge]].
      rewrite Hvr in Hv. inversion Hv; subst. assumption.
  - destruct Hlstop as [->|[v [Hv Hge]]]; [left; reflexivity|right].
    exists v. repeat split; try assumption. apply Hstrict. assumption.
  - destruct Hrstop as [->|[v [Hv Hge]]]; [left; reflexivity|right].
    exists v. repeat split; try assumption. apply Hstrict. assumption.
Qed.

(** C6, as the code has it.  For a series of one sample [v] at the
    temperature [t], the detector returns [(t, t)] in the first slot and
    [None] in the second when [v <= 0] is false, and [[None, None]] when
    [v <= 0]; for the empty series it returns [[None, None]]. *)
Theorem single_and_empty_series :
  (forall v t rest,
     two_peak_half_intervals fsum [v] (t :: rest)
       = Ok [if v <=? 0 then None else Some (t, t); None]) /\
  (forall temps, two_peak_half_intervals fsum [] temps = Ok [None; None]).
Proof.
  split.
  - intros v t rest. unfold two_peak_half_intervals, ranked_peaks, peak_candidates,
      sort_by_value, slot_interval, half_max_bounds.
    cbn. destruct (v <=? 0); reflexivity.
  - intros temps. reflexivity.
Qed.

End PeakProperties.

(** ** Examples *)

(** [peaks_from_index_5] on a series that rises to a peak at index 8. *)
Lemma peaks_from_index_5_witness :
  Forall (fun idx => (5 <= idx < length [0; 0; 0; 0; 0; 1; 2; 3; 4; 3])%nat) [8%nat].
Proof.
  apply (peaks_from_index_5 sum_left [0; 0; 0; 0; 0; 1; 2; 3; 4; 3] [8%nat]).
  - discriminate.
  - reflexivity.
Defined.

(** C5 as stated fails on the series of one sample: its index 0 is
    ranked, and its interval fills the first slot. *)
Lemma single_sample_peak_at_0 :
  ranked_peaks sum_left [1] = Ok [0%nat] /\
  two_peak_half_intervals sum_left [1] [7] = Ok [Some (7, 7); None].
Proof. split; reflexivity. Qed.

(** C6 as stated fails on a single sample that is not positive: the first
    slot stays [None]. *)
Lemma single_sample_not_positive :
  two_peak_half_intervals sum_left [0] [7] = Ok [None; None] /\
  two_peak_half_intervals sum_left [0] [7] <> Ok [Some (7, 7); None].
Proof. split; [reflexivity|discriminate]. Qed.

(** [two_peak_half_intervals_total] on the same series. *)
Lemma two_peak_half_intervals_total_witness :
  (forall i, (5 <= i < length [0; 0; 0; 0; 0; 1; 2; 3; 4; 3])%nat ->
     let left_slice := firstn i [0; 0; 0; 0; 0; 1; 2; 3; 4; 3] in
     length left_slice = i /\
     (float_of_len (length left_slice) =? 0) = false /\
     py_div (sum_left left_slice) (float_of_len (length left_slice))
       = Ok (sum_left left_slice / float_of_len (length left_slice))) /\
  exists out,
    two_peak_half_intervals sum_left [0; 0; 0; 0; 0; 1; 2; 3; 4; 3]
      [1; 2; 3; 4; 5; 6; 7; 8; 9; 10] = Ok out.
Proof.
  apply (two_peak_half_intervals_total sum_left [0; 0; 0; 0; 0; 1; 2; 3; 4; 3]
           [1; 2; 3; 4; 5; 6; 7; 8; 9; 10]).
  reflexivity.
Defined.

(** [half_max_interval_bounds] on the same series: the peak 4 at index 8,
    [half = 2], bounds 6 and 9. *)
Lemma half_max_interval_bounds_witness :
  exists peaks idx peak_val lb rb vl vr,
    ranked_peaks sum_left [0; 0; 0; 0; 0; 1; 2; 3; 4; 3] = Ok peaks /\
    nth_error peaks 0 = Some idx /\
    get [0; 0; 0; 0; 0; 1; 2; 3; 4; 3] idx = Ok peak_val /\
    (length [0; 0; 0; 0; 0; 1; 2; 3; 4; 3] <> 1%nat -> ordered peak_val) /\
    let half := peak_val / 2 in
    half_max_bounds [0; 0; 0; 0; 0; 1; 2; 3; 4; 3] half idx = Ok (lb, rb) /\
    (7, 10) = (nth lb [1; 2; 3; 4; 5; 6; 7; 8; 9; 10] 0,
               nth rb [1; 2; 3; 4; 5; 6; 7; 8; 9; 10] 0) /\
    (lb <= idx <= rb)%nat /\ (rb < length [0; 0; 0; 0; 0; 1; 2; 3; 4; 3])%nat /\
    get [0; 0; 0; 0; 0; 1; 2; 3; 4; 3] lb = Ok vl /\
    get [0; 0; 0; 0; 0; 1; 2; 3; 4; 3] rb = Ok vr /\
    (ordered peak_val -> (vl >=? half) = true /\ (vr >=? half) = true) /\
    (lb = 0%nat \/
     exists v, get [0; 0; 0; 0; 0; 1; 2; 3; 4; 3] (lb - 1) = Ok v /\
               (v >=? half) = false /\
               (ordered peak_val -> ordered v -> (v <? half) = true)) /\
    (rb = (length [0; 0; 0; 0; 0; 1; 2; 3; 4; 3] - 1)%nat \/
     exists v, get [0; 0; 0; 0; 0; 1; 2; 3; 4; 3] (rb + 1) = Ok v /\
               (v >=? half) = false /\
               (ordered peak_val -> ordered v -> (v <? half) = true)).
Proof.
  apply (half_max_interval_bounds sum_left [0; 0; 0; 0; 0; 1; 2; 3; 4; 3]
           [1; 2; 3; 4; 5; 6; 7; 8; 9; 10] [Some (7, 10); None] 0 (7, 10)).
  - reflexivity.
  - reflexivity.
Defined.

(** C7 as stated fails in the presence of NaN.  In the first series the
    peak is at index 5 with [half = 0.5]; the left walk stops at index 4
    because [values[3]] is NaN, so that [left_bound = 4] is not 0 and
    [values[3] < half] is false.  In the second the single sample is NaN:
    its interval is produced, [half] is NaN and [values[0] >= half] is
    false. *)
Lemma half_max_bounds_with_nan :
  (two_peak_half_intervals sum_left [0; 0; 0; nan; 1; 1] [1; 2; 3; 4; 5; 6]
     = Ok [Some (5, 6); None] /\
   ranked_peaks sum_left [0; 0; 0; nan; 1; 1] = Ok [5%nat] /\
   half_max_bounds [0; 0; 0; nan; 1; 1] (1 / 2) 5 = Ok (4%nat, 5%nat) /\
   get [0; 0; 0; nan; 1; 1] 3 = Ok nan /\
   (nan <? 1 / 2) = false) /\
  (two_peak_half_intervals sum_left [nan] [7] = Ok [Some (7, 7); None] /\
   half_max_bounds [nan] (nan / 2) 0 = Ok (0%nat, 0%nat) /\
   (nan >=? nan / 2) = false).
Proof. repeat split; reflexivity. Qed.

(** * Part V: the Tc Scan Engine *)

(** ** Best-fit selection *)

(** The test that skips a record is the negation of [eligible]. *)
Lemma skip_not_eligible r :
  negb (is_valid r) || negb (is_finite (r_squared r)) || (r_squared r <=? 0) = true <->
  ~ eligible r.
Proof.
  unfold eligible. split.
  - intros H [Hv [Hf Hp]]. rewrite Hv, Hf in H. simpl in H.
    apply fl_leb_not_ltb in H. congruence.
  - intros H.
    destruct (is_valid r); [|reflexivity].
    destruct (is_finite (r_squared r)) eqn:Ef; [|reflexivity]. simpl.
    destruct (r_squared r <=? 0) eqn:El; [reflexivity|]. exfalso. apply H.
    repeat split. apply fl_not_leb_ltb; [apply fl_finite_ordered; assumption|apply ordered_zero|assumption].
Qed.

Lemma eligible_ordered r : eligible r -> ordered (r_squared r).
Proof. intros [_ [Hf _]]. apply fl_finite_ordered. assumption. Qed.

Lemma select_step_invariant seen best r :
  best_so_far seen best -> best_so_far (seen ++ [r]) (select_step best r).
Proof.
  intros Inv. unfold select_step.
  destruct (negb (is_valid r) || negb (is_finite (r_squared r)) || (r_squared r <=? 0)) eqn:Eskip.
  - (* skipped *)
    apply skip_not_eligible in Eskip.
    destruct best as [b|]; simpl in *.
    + destruct Inv as (k & Hk & Hb & Hmax & Hfirst).
      assert (Hlt : (k < length seen)%nat) by (apply nth_error_Some; congruence).
      exists k. repeat split; try apply Hb.
      * rewrite nth_error_app1 by assumption. assumption.
      * apply Forall_app. split; [assumption|]. constructor; [|constructor].
        intros He. contradiction.
      * rewrite firstn_app. replace (k - length seen)%nat with 0%nat by lia.
        simpl. rewrite app_nil_r. assumption.
    + apply Forall_app. split; [assumption|]. constructor; [assumption|constructor].
  - (* eligible *)
    assert (He : eligible r).
    { destruct (is_valid r) eqn:Ev; [|discriminate].
      destruct (is_finite (r_squared r)) eqn:Ef; [|discriminate]. simpl in Eskip.
      repeat split; try assumption.
      apply fl_not_leb_ltb; [apply fl_finite_ordered; assumption|apply ordered_zero|assumption]. }
    pose proof (eligible_ordered r He) as Hor.
    destruct best as [b|]; simpl in *.
    + destruct Inv as (k & Hk & Hb & Hmax & Hfirst).
      assert (Hlt : (k < length seen)%nat) by (apply nth_error_Some; congruence).
      pose proof (eligible_ordered b Hb) as Hob.
      destruct (r_squared r >? r_squared b) eqn:Egt.
      * (* strictly better: r is the new best *)
        exists (length seen). repeat split; try apply He.
        -- rewrite nth_error_app2 by lia. rewrite Nat.sub_diag. reflexivity.
        -- apply Forall_app. split.
           ++ eapply Forall_impl; [|exact Hmax]. intros r' Hr' He'.
              apply fl_ltb_leb. eapply fl_leb_ltb_trans; [apply Hr'; assumption|assumption].
           ++ constructor; [|constructor]. intros _. apply fl_leb_refl. assumption.
        -- rewrite firstn_app, Nat.sub_diag, firstn_all. simpl. rewrite app_nil_r.
           eapply Forall_impl; [|exact Hmax]. intros r' Hr' He'.
           eapply fl_leb_ltb_trans; [apply Hr'; assumption|assumption].
      * (* not better: the best stays *)
        exists k. repeat split; try apply Hb.
        -- rewrite nth_error_app1 by assumption. assumption.
        -- apply Forall_app. split; [assumption|]. constructor; [|constructor].
           intros _. apply fl_not_ltb_leb; assumption.
        -- rewrite firstn_app. replace (k - length seen)%nat with 0%nat by lia.
           simpl. rewrite app_nil_r. assumption.
    + (* the first eligible record *)
      exists (length seen). repeat split; try apply He.
      * rewrite nth_error_app2 by lia. rewrite Nat.sub_diag. reflexivity.
      * apply Forall_app. split.
        -- eapply Forall_impl; [|exact Inv]. intros r' Hr' He'. contradiction.
        -- constructor; [|constructor]. intros _. apply fl_leb_refl. assumption.
      * rewrite firstn_app, Nat.sub_diag, firstn_all. simpl. rewrite app_nil_r.
        eapply Forall_impl; [|exact Inv]. intros r' Hr' He'. contradiction.
Qed.

Lemma select_fold_invariant : forall rest seen best,
  best_so_far seen best -> best_so_far (seen ++ rest) (fold_left select_step rest best).
Proof.
  induction rest as [|r rest IH]; intros seen best Inv; simpl.
  - rewrite app_nil_r. assumption.
  - replace (seen ++ r :: rest) with ((seen ++ [r]) ++ rest) by (rewrite <- app_assoc; reflexivity).
    apply IH. apply select_step_invariant. assumption.
Qed.

Lemma select_best_spec results : best_so_far results (select_best results).
Proof.
  unfold select_best. apply (select_fold_invariant results [] None). constructor.
Qed.



Section ScanProperties.

Variable fsum : list float -> float.
Variable libm_log : float -> float.
Variable libm_pow : float -> float -> float.

(** ** Fit samples *)

Lemma math_log_pos x : (x >? 0) = true -> math_log libm_log x = Ok (libm_log x).
Proof.
  intros H. unfold math_log. rewrite H.
  pose proof (fl_ltb_ordered_r _ _ H) as Ho. unfold ordered in Ho. rewrite Ho. reflexivity.
Qed.

Lemma qualifies_spec t_min t_max tc t m :
  qualifies t_min t_max tc (t, m) = true <->
  (t_min <=? t) = true /\ (t <=? t_max) = true /\ (t <? tc) = true /\ (m >? 0) = true.
Proof.
  unfold qualifies. rewrite !andb_true_iff. tauto.
Qed.

Lemma fit_samples_filter t_min t_max tc : forall pairs,
  fit_samples libm_log t_min t_max tc pairs
  = Ok (map (fun tm => libm_log (tc - fst tm)) (filter (qualifies t_min t_max tc) pairs),
        map (fun tm => libm_log (snd tm)) (filter (qualifies t_min t_max tc) pairs)).
Proof.
  induction pairs as [|[t m] rest IH]; [reflexivity|].
  cbn [fit_samples filter].
  destruct (qualifies t_min t_max tc (t, m)) eqn:Eq.
  - apply qualifies_spec in Eq. destruct Eq as (_ & _ & Hlt & Hm).
    rewrite (math_log_pos (tc - t)) by (apply fl_sub_pos; assumption).
    rewrite (math_log_pos m) by assumption.
    cbn [bind]. rewrite IH. reflexivity.
  - assumption.
Qed.

(** C3.  For every candidate [tc] the samples are exactly the pairs
    [(ln(tc - t), ln(m))] over the pairs [(t, m)] of
    [zip(temps, mags)] with [t_min <= t <= t_max], [t < tc] and [m > 0],
    in input order; no logarithm raises, because both arguments are
    positive for every pair that is kept. *)
Theorem fit_samples_spec temps mags t_min t_max tc :
  let kept := fit_pairs temps mags t_min t_max tc in
  fit_samples libm_log t_min t_max tc (combine temps mags)
    = Ok (map (fun tm => libm_log (tc - fst tm)) kept,
          map (fun tm => libm_log (snd tm)) kept) /\
  kept = filter (fun tm => (t_min <=? fst tm) && (fst tm <=? t_max)
                           && (fst tm <? tc) && (snd tm >? 0))
           (combine temps mags) /\
  Forall (fun tm => (tc - fst tm >? 0) = true /\ (snd tm >? 0) = true) kept.
Proof.
  intros kept. split; [apply fit_samples_filter|]. split.
  - unfold kept, fit_pairs. apply filter_ext. intros [t m]. unfold qualifies. cbn [fst snd].
    destruct (t <? tc), (t_min <=? t), (t <=? t_max), (m >? 0); reflexivity.
  - apply Forall_forall. intros [t m] Hin. apply filter_In in Hin. destruct Hin as [_ Hq].
    apply qualifies_spec in Hq. destruct Hq as (_ & _ & Hlt & Hm). cbn [fst snd].
    split; [apply fl_sub_pos|]; assumption.
Qed.

(** ** The record of a candidate *)

Lemma fit_candidate_eq temps mags t_min t_max tc :
  let kept := fit_pairs temps mags t_min t_max tc in
  fit_candidate fsum libm_log libm_pow temps mags t_min t_max tc
  = fit_record_of fsum libm_pow tc (map (fun tm => libm_log (tc - fst tm)) kept)
      (map (fun tm => libm_log (snd tm)) kept).
Proof.
  intros kept. unfold fit_candidate. rewrite fit_samples_filter. reflexivity.
Qed.




Lemma fit_candidate_tc temps mags t_min t_max tc rec :
  fit_candidate fsum libm_log libm_pow temps mags t_min t_max tc = Ok rec ->
  tc_candidate rec = tc.
Proof.
  rewrite fit_candidate_eq. unfold fit_record_of. intros H.
  destruct (Nat.ltb _ 4); [inversion H; reflexivity|].
  match type of H with (if ?c then _ else _) = _ => destruct c end; [inversion H; reflexivity|].
  repeat (apply bind_Ok in H; destruct H as [? [? H]]).
  inversion H; reflexivity.
Qed.

(** ** The candidates and the best fit *)


Lemma py_round_finite q n : py_round q = Ok n -> SFfinite (Prim2SF q) = true.
Proof. unfold py_round. destruct (Prim2SF q); try discriminate; reflexivity. Qed.

(** When the number of steps is defined, both ends of the Tc window are
    finite. *)
Lemma scan_steps_finite tc_min tc_max tc_step n :
  scan_steps tc_min tc_max tc_step = Ok n ->
  is_finite tc_min = true /\ is_finite tc_max = true.
Proof.
  unfold scan_steps, py_div. intros H.
  destruct (tc_step =? 0); [discriminate|]. cbn [bind] in H.
  apply py_round_finite in H.
  rewrite FloatAxioms.div_spec, FloatAxioms.sub_spec in H.
  apply SFdiv_sub_finite in H. rewrite !is_finite_spec. tauto.
Qed.



(** C1.  When the scan returns [(results, best)]: [best] is the result of
    the selection loop over [results]; if it is a record, that record is
    the first of [results] whose [r_squared] is maximal among the records
    with [is_valid], and finite, positive [r_squared], and so it is valid
    with a finite [r_squared]; if it is [None], no record qualifies. *)
Theorem best_fit_is_first_maximum temps mags t_min t_max tc_min tc_max tc_step results best :
  run_loglog_tc_scan fsum libm_log libm_pow temps mags t_min t_max tc_min tc_max tc_step
    = Ok (results, best) ->
  best = select_best results /\
  match best with
  | Some b => first_best results b /\ is_valid b = true /\ is_finite (r_squared b) = true
  | None => Forall (fun r => ~ eligible r) results
  end.
Proof.
  unfold run_loglog_tc_scan. intros H.
  apply bind_Ok in H. destruct H as [n_steps [Hn H]].
  apply bind_Ok in H. destruct H as [rs [Hrs H]]. inversion H; subst rs best; clear H.
  split; [reflexivity|].
  pose proof (select_best_spec results) as Hb.
  destruct (select_best results) as [b|]; simpl in Hb; [|assumption].
  split; [assumption|].
  destruct Hb as (k & _ & (Hv & Hf & _) & _). split; assumption.
Qed.

End ScanProperties.

(** ** Examples *)




(** [best_fit_is_first_maximum] on the same scan: the best fit is the
    second record, at 6.75. *)
Lemma best_fit_is_first_maximum_witness :
  exists results best,
    run_loglog_tc_scan sum_left example_log example_pow example_temps example_mags
      0 10 6.5 7.5 0.25 = Ok (results, best) /\
    best = select_best results /\
    match best with
    | Some b => first_best results b /\ is_valid b = true /\ is_finite (r_squared b) = true
    | None => Forall (fun r => ~ eligible r) results
    end.
Proof.
  eexists. eexists. split.
  - vm_compute. reflexivity.
  - apply (best_fit_is_first_maximum sum_left example_log example_pow
             example_temps example_mags 0 10 6.5 7.5 0.25).
    vm_compute. reflexivity.
Defined.


(** * Part VI: further properties *)

(** ** The Window Builder *)

Lemma build_window_present intervals :
  build_window intervals =
  match present intervals with
  | [] => None
  | (l0, r0) :: ps =>
      let ls := map fst ps in
      let rs := map snd ps in
      if negb (py_max l0 ls <=? py_min r0 rs)
      then Some (py_min l0 ls, py_max r0 rs, py_min l0 ls, py_max r0 rs)
      else Some (py_min l0 ls, py_max r0 rs, py_max l0 ls, py_min r0 rs)
  end.
Proof.
  unfold build_window. rewrite bounds_present.
  destruct (present intervals) as [|[l0 r0] ps]; reflexivity.
Qed.

(** X1.  [build_window] returns [None] exactly when every interval of its
    input is [None] (the empty input included). *)
Theorem build_window_none_iff intervals :
  build_window intervals = None <-> Forall (fun it => it = None) intervals.
Proof.
  rewrite build_window_present. split.
  - intros H. apply Forall_forall. intros [i|] Hin; [|reflexivity].
    apply present_In in Hin.
    destruct (present intervals) as [|[l0 r0] ps]; [contradiction|].
    cbn zeta in H. destruct (negb _); discriminate.
  - intros H.
    assert (E : present intervals = []).
    { induction H as [|it rest Hit _ IH]; [reflexivity|]. subst it. exact IH. }
    rewrite E. reflexivity.
Qed.

(** X2.  When exactly one interval [(l, r)] of the input is present,
    whatever its bounds (inverted or NaN included), the window is
    [(l, r, l, r)]: envelope and overlap are both that interval. *)
Theorem build_window_single intervals l r :
  present intervals = [(l, r)] ->
  build_window intervals = Some (l, r, l, r).
Proof.
  intros H. rewrite build_window_present, H. cbn.
  destruct (l <=? r); reflexivity.
Qed.

(** X3.  When no bound is NaN, the envelope of the window encloses every
    present interval, and the overlap either is the envelope (the
    fallback) or is in order and lies inside every present interval. *)
Theorem window_encloses_intervals intervals t_env_min t_env_max tc_ov_min tc_ov_max :
  Forall (fun i => ordered (fst i) /\ ordered (snd i)) (present intervals) ->
  build_window intervals = Some (t_env_min, t_env_max, tc_ov_min, tc_ov_max) ->
  Forall (fun i => (t_env_min <=? fst i) = true /\ (snd i <=? t_env_max) = true)
    (present intervals) /\
  ((tc_ov_min, tc_ov_max) = (t_env_min, t_env_max) \/
   (tc_ov_min <=? tc_ov_max) = true /\
   Forall (fun i => (fst i <=? tc_ov_min) = true /\ (tc_ov_max <=? snd i) = true)
     (present intervals)).
Proof.
  intros Hord H. rewrite build_window_present in H.
  destruct (present intervals) as [|[l0 r0] ps] eqn:Ep; [discriminate|].
  cbn zeta in H.
  assert (Hls : Forall ordered (l0 :: map fst ps)).
  { change (l0 :: map fst ps) with (map fst ((l0, r0) :: ps)).
    apply Forall_map. eapply Forall_impl; [|exact Hord]. intros i Hi. apply Hi. }
  assert (Hrs : Forall ordered (r0 :: map snd ps)).
  { change (r0 :: map snd ps) with (map snd ((l0, r0) :: ps)).
    apply Forall_map. eapply Forall_impl; [|exact Hord]. intros i Hi. apply Hi. }
  pose proof (py_min_le _ _ Hls) as Hminl. pose proof (py_max_ge _ _ Hrs) as Hmaxr.
  pose proof (py_max_ge _ _ Hls) as Hmaxl. pose proof (py_min_le _ _ Hrs) as Hminr.
  change (l0 :: map fst ps) with (map fst ((l0, r0) :: ps)) in Hminl, Hmaxl.
  change (r0 :: map snd ps) with (map snd ((l0, r0) :: ps)) in Hmaxr, Hminr.
  rewrite Forall_map in Hminl, Hmaxl, Hmaxr, Hminr.
  rewrite Forall_forall in Hminl, Hmaxl, Hmaxr, Hminr.
  destruct (py_max l0 (map fst ps) <=? py_min r0 (map snd ps)) eqn:Eov;
    cbn [negb] in H; inversion H; subst; clear H.
  - split.
    + apply Forall_forall. intros i Hi. split; [apply Hminl|apply Hmaxr]; assumption.
    + right. split; [assumption|].
      apply Forall_forall. intros i Hi. split; [apply Hmaxl|apply Hminr]; assumption.
  - split.
    + apply Forall_forall. intros i Hi. split; [apply Hminl|apply Hmaxr]; assumption.
    + left. reflexivity.
Qed.

(** ** Ranking *)

Lemma insert_desc_perm x : forall sorted, Permutation (insert_desc x sorted) (x :: sorted).
Proof.
  induction sorted as [|y rest IH]; simpl; [reflexivity|].
  destruct (snd y <? snd x); [reflexivity|].
  rewrite IH. apply perm_swap.
Qed.

Lemma sort_desc_perm keyed : Permutation (sort_desc keyed) keyed.
Proof.
  unfold sort_desc.
  assert (G : forall acc, Permutation (fold_left (fun sorted x => insert_desc x sorted) keyed acc)
                            (keyed ++ acc)).
  { induction keyed as [|x rest IH]; intros acc; simpl; [reflexivity|].
    rewrite IH, insert_desc_perm. symmetry. apply Permutation_middle. }
  rewrite G. rewrite app_nil_r. reflexivity.
Qed.

Lemma insert_desc_sorted x : forall sorted,
  ordered (snd x) -> Forall (fun y => ordered (snd y)) sorted ->
  StronglySorted (fun a b => (snd b <=? snd a) = true) sorted ->
  StronglySorted (fun a b => (snd b <=? snd a) = true) (insert_desc x sorted).
Proof.
  intros sorted Hx. induction sorted as [|y rest IH]; intros Hord Hs; simpl.
  - constructor; constructor.
  - inversion Hs as [|? ? Hrest Hy]; subst. inversion Hord as [|? ? Hoy Hor]; subst.
    destruct (snd y <? snd x) eqn:E.
    + constructor; [assumption|].
      constructor; [apply fl_ltb_leb; assumption|].
      eapply Forall_impl; [|exact Hy]. intros z Hz.
      apply fl_leb_trans with (snd y); [assumption|apply fl_ltb_leb; assumption].
    + constructor; [apply IH; assumption|].
      apply Forall_forall. intros z Hz.
      apply (Permutation_in _ (insert_desc_perm x rest)) in Hz.
      destruct Hz as [<-|Hz].
      * apply fl_not_ltb_leb; assumption.
      * rewrite Forall_forall in Hy. apply Hy. assumption.
Qed.

Lemma sort_desc_sorted keyed :
  Forall (fun y => ordered (snd y)) keyed ->
  StronglySorted (fun a b => (snd b <=? snd a) = true) (sort_desc keyed).
Proof.
  unfold sort_desc. intros Hord.
  assert (G : forall acc,
             Forall (fun y => ordered (snd y)) acc ->
             StronglySorted (fun a b => (snd b <=? snd a) = true) acc ->
             StronglySorted (fun a b => (snd b <=? snd a) = true)
               (fold_left (fun sorted x => insert_desc x sorted) keyed acc)).
  { induction Hord as [|x rest Hx Hrest IH]; intros acc Ha Hs; simpl; [assumption|].
    apply IH.
    - apply Forall_forall. intros z Hz.
      apply (Permutation_in _ (insert_desc_perm x acc)) in Hz.
      destruct Hz as [<-|Hz]; [assumption|]. rewrite Forall_forall in Ha. apply Ha. assumption.
    - apply insert_desc_sorted; assumption. }
  apply G; constructor.
Qed.

Lemma dedup_loop_nodup : forall peaks acc,
  NoDup (acc ++ peaks) -> dedup_loop peaks acc = acc ++ peaks.
Proof.
  induction peaks as [|p rest IH]; intros acc H; simpl.
  - rewrite app_nil_r. reflexivity.
  - assert (Hnot : ~ In p acc).
    { intros Hin. apply NoDup_remove_2 in H. apply H. apply in_or_app. left. assumption. }
    destruct (existsb (Nat.eqb p) acc) eqn:E.
    + apply existsb_exists in E. destruct E as [q [Hq Heq]].
      apply Nat.eqb_eq in Heq. subst q. contradiction.
    + rewrite IH; rewrite <- app_assoc; [reflexivity|assumption].
Qed.

(** ** Temperatures in order *)

Lemma nondecreasing_head t rest :
  nondecreasing (t :: rest) = true ->
  Forall (fun u => (t <=? u) = true) (t :: rest) /\ nondecreasing rest = true.
Proof.
  revert t. induction rest as [|u rest IH]; intros t H.
  - split; [|reflexivity]. constructor; [exact H|constructor].
  - cbn [nondecreasing] in H. fold (nondecreasing (u :: rest)) in H.
    apply andb_true_iff in H. destruct H as [Htu Hrest].
    destruct (IH u Hrest) as [Hall _]. split; [|assumption].
    constructor; [apply fl_leb_refl; eapply fl_leb_ordered_l; eassumption|].
    eapply Forall_impl; [|exact Hall]. intros w Hw. eapply fl_leb_trans; eassumption.
Qed.

Lemma nondecreasing_nth temps : forall i j a b,
  nondecreasing temps = true -> (i <= j)%nat ->
  nth_error temps i = Some a -> nth_error temps j = Some b -> (a <=? b) = true.
Proof.
  induction temps as [|t rest IH]; intros i j a b H Hij Hi Hj.
  - destruct i; discriminate.
  - destruct (nondecreasing_head _ _ H) as [Hall Hrest].
    destruct i as [|i].
    + inversion Hi; subst a. rewrite Forall_forall in Hall. apply Hall.
      eapply nth_error_In; eassumption.
    + destruct j as [|j]; [lia|]. simpl in Hi, Hj.
      apply (IH i j a b Hrest); [lia|assumption|assumption].
Qed.

(** ** The Peak Detector *)

Section PeakDetectorMore.

Variable fsum : list float -> float.

Lemma strong_enough_true values mean_left i : forall ks,
  strong_enough values mean_left i ks = Ok true ->
  Forall (fun k => exists w, get values (i - k) = Ok w /\ (w <=? mean_left) = false) ks.
Proof.
  induction ks as [|k rest IH]; intros H; simpl in H; [constructor|].
  inv_bind H. destruct (a <=? mean_left) eqn:E; [discriminate|].
  constructor; [exists a; split; assumption|apply IH; assumption].
Qed.

Lemma is_peak_true_conditions values i :
  is_peak fsum values (length values) i = Ok true -> peak_conditions fsum values i.
Proof.
  intros H. pose proof (is_peak_true_ge _ _ _ _ H) as H5.
  unfold is_peak in H. inv_bind H. rename a into v. inv_bind H. inv_bind H.
  destruct (a && a0 && (v >? 0)) eqn:Ec; [|discriminate].
  apply andb_true_iff in Ec. destruct Ec as [Ec Hpos].
  apply andb_true_iff in Ec. destruct Ec as [-> ->].
  replace (Nat.ltb i 5) with false in H by (symmetry; apply Nat.ltb_ge; lia).
  inv_bind H. rename a into mean_left.
  replace (Nat.eqb i 0) with false in Ha0 by (symmetry; apply Nat.eqb_neq; lia).
  inv_bind Ha0. rename a into p. inversion Ha0 as [Hp]; clear Ha0.
  unfold py_div in Ha2.
  destruct (float_of_len (length (firstn i values)) =? 0); [discriminate|].
  inversion Ha2; subst mean_left; clear Ha2.
  assert (Hi : (i < length values)%nat) by (eapply get_Ok_lt; eassumption).
  rewrite length_firstn, Nat.min_l in H by lia.
  replace (Nat.min 3 i) with 3%nat in H by lia.
  exists v, p. repeat split; try assumption.
  - destruct (Nat.eqb i (length values - 1)) eqn:En.
    + left. apply Nat.eqb_eq. assumption.
    + right. inv_bind Ha1. exists a. inversion Ha1 as [Hq]. split; [assumption|reflexivity].
  - apply strong_enough_true in H. exact H.
Qed.

(** X6.  In a series of two or more samples, every peak that is ranked
    satisfies the conditions of the source: its value is positive and not
    below either neighbour, and the peak and the three samples before it
    are all not [<=] the mean of the samples to its left. *)
Theorem ranked_peak_conditions values peaks :
  length values <> 1%nat ->
  ranked_peaks fsum values = Ok peaks ->
  Forall (peak_conditions fsum values) peaks.
Proof.
  intros Hn H. apply Forall_forall. intros idx Hin.
  destruct (ranked_peaks_In _ _ _ _ H Hin) as [c [Hc Hic]].
  destruct (peak_candidates_In _ _ _ _ Hc Hic) as [_ [E|Hp]]; [contradiction|].
  apply is_peak_true_conditions. assumption.
Qed.

Lemma collect_peaks_nodup values n : forall idxs peaks,
  collect_peaks fsum values n idxs = Ok peaks -> NoDup idxs -> NoDup peaks.
Proof.
  induction idxs as [|j rest IH]; intros peaks H Hnd; simpl in H.
  - inversion H. constructor.
  - inv_bind H. inv_bind H. inversion H; subst; clear H.
    inversion Hnd as [|? ? Hj Hrest]; subst.
    destruct a; [|apply IH; assumption].
    constructor; [|apply IH; assumption].
    intros Hin. apply Hj. eapply collect_peaks_In; eassumption.
Qed.

Lemma peak_candidates_nodup values candidates :
  peak_candidates fsum values = Ok candidates -> NoDup candidates.
Proof.
  unfold peak_candidates. destruct (Nat.eqb (length values) 1).
  - intros H. inversion H. constructor; [intros []|constructor].
  - intros H. eapply collect_peaks_nodup; [eassumption|apply seq_NoDup].
Qed.

(** X5.  The ranked peaks are a rearrangement of the candidates, without
    repetition, in non-increasing order of value: the strongest peak is
    first. *)
Theorem ranked_peaks_sorted values peaks :
  ranked_peaks fsum values = Ok peaks ->
  exists candidates,
    peak_candidates fsum values = Ok candidates /\
    Permutation peaks candidates /\ NoDup peaks /\
    StronglySorted (fun i j => (nth j values 0 <=? nth i values 0) = true) peaks.
Proof.
  unfold ranked_peaks. intros H.
  apply bind_Ok in H. destruct H as [candidates [Ha H]].
  apply bind_Ok in H. destruct H as [sorted [Hsort H]].
  inversion H; subst peaks; clear H.
  exists candidates. split; [assumption|].
  unfold sort_by_value in Hsort.
  apply bind_Ok in Hsort. destruct Hsort as [keyed [Ha1 Hsort]].
  inversion Hsort; subst sorted; clear Hsort.
  destruct (keyed_fst _ _ _ Ha1) as [Efst Hkeys].
  pose proof (peak_candidates_nodup _ _ Ha) as Hnd.
  assert (Hperm : Permutation (map fst (sort_desc keyed)) candidates).
  { rewrite <- Efst. apply Permutation_map. apply sort_desc_perm. }
  assert (Hnd' : NoDup (map fst (sort_desc keyed))).
  { eapply Permutation_NoDup; [symmetry; exact Hperm|assumption]. }
  rewrite (dedup_loop_nodup _ [] Hnd'). cbn [app].
  split; [assumption|]. split; [assumption|].
  destruct (Nat.eq_dec (length values) 1) as [E1|E1].
  - (* one sample: one peak *)
    unfold peak_candidates in Ha. rewrite E1 in Ha. cbn in Ha. injection Ha as Ec.
    rewrite <- Ec in Hperm.
    apply Permutation_sym, Permutation_length_1_inv in Hperm. rewrite Hperm.
    constructor; constructor.
  - assert (Hord : Forall (fun kv => ordered (snd kv)) keyed).
    { apply Forall_forall. intros [i v] Hin. cbn [snd].
      rewrite Forall_forall in Hkeys. pose proof (Hkeys _ Hin) as Hget. cbn [fst snd] in Hget.
      assert (Hic : In i candidates).
      { rewrite <- Efst. apply in_map_iff. exists (i, v). split; [reflexivity|assumption]. }
      destruct (peak_candidates_In _ _ _ _ Ha Hic) as [_ [E|Hp]]; [contradiction|].
      destruct (is_peak_true_pos _ _ _ _ Hp) as [w [Hw Hgt]].
      rewrite Hget in Hw. inversion Hw; subst w.
      eapply fl_ltb_ordered_r; eassumption. }
    pose proof (sort_desc_sorted keyed Hord) as Hs.
    assert (Hk' : Forall (fun kv => get values (fst kv) = Ok (snd kv)) (sort_desc keyed)).
    { apply Forall_forall. intros kv Hin. rewrite Forall_forall in Hkeys. apply Hkeys.
      eapply Permutation_in; [apply sort_desc_perm|assumption]. }
    clear - Hs Hk'. induction Hs as [|kv rest Hrest IH Hkv]; [constructor|].
    inversion Hk' as [|? ? Hget Hrest']; subst. cbn [map].
    constructor; [apply IH; assumption|].
    apply Forall_map. apply Forall_forall. intros kv' Hin.
    rewrite Forall_forall in Hkv, Hrest'.
    pose proof (Hrest' _ Hin) as Hget'.
    apply get_Ok in Hget, Hget'.
    rewrite (nth_error_nth _ _ 0 Hget), (nth_error_nth _ _ 0 Hget').
    apply Hkv. assumption.
Qed.

Lemma ranked_peaks_one values :
  length values = 1%nat -> ranked_peaks fsum values = Ok [0%nat].
Proof.
  destruct values as [|v [|w rest]]; try discriminate. intros _. reflexivity.
Qed.

Lemma slot_interval_oriented values temps idx r :
  nondecreasing temps = true ->
  slot_interval values temps idx = Ok r -> oriented r.
Proof.
  intros Hs H. unfold slot_interval in H.
  apply bind_Ok in H. destruct H as [v [Hv H]].
  destruct (v <=? 0); [inversion H; exact I|].
  pose proof (get_Ok_lt _ _ _ Hv) as Hidx.
  destruct (half_max_bounds_spec values (v / 2) idx Hidx) as (lb & rb & Hb & Hle & _).
  rewrite Hb in H. cbn [bind] in H.
  apply bind_Ok in H. destruct H as [tl [Hl H]].
  apply bind_Ok in H. destruct H as [tr [Hr H]].
  inversion H; subst r. cbn [oriented].
  apply get_Ok in Hl, Hr.
  apply (nondecreasing_nth temps lb rb tl tr Hs); [lia|assumption|assumption].
Qed.

Lemma slot_interval_some values temps idx r :
  slot_interval values temps idx = Ok r ->
  (exists v, get values idx = Ok v /\ (v >? 0) = true) -> r <> None.
Proof.
  intros H [v [Hv Hpos]]. unfold slot_interval in H. rewrite Hv in H. cbn [bind] in H.
  rewrite (fl_ltb_not_leb _ _ Hpos) in H.
  destruct (half_max_bounds values (v / 2) idx) as [[lb rb]|]; [|discriminate].
  cbn [bind] in H.
  destruct (get temps lb); [|discriminate]. destruct (get temps rb); [|discriminate].
  inversion H. discriminate.
Qed.

(** What the final loop returns, from the ranked peaks. *)
Lemma two_peak_cases values temps out :
  two_peak_half_intervals fsum values temps = Ok out ->
  (values = [] /\ out = [None; None]) \/
  exists peaks, ranked_peaks fsum values = Ok peaks /\
    match peaks with
    | [] => out = [None; None]
    | [idx0] => exists r0, slot_interval values temps idx0 = Ok r0 /\ out = [r0; None]
    | idx0 :: idx1 :: _ =>
        exists r0 r1, slot_interval values temps idx0 = Ok r0 /\
                      slot_interval values temps idx1 = Ok r1 /\ out = [r0; r1]
    end.
Proof.
  unfold two_peak_half_intervals. intros H.
  destruct (Nat.eqb (length values) 0) eqn:E0.
  - left. apply Nat.eqb_eq in E0. destruct values; [|discriminate].
    inversion H. split; reflexivity.
  - right. apply bind_Ok in H. destruct H as [peaks [Hp H]]. exists peaks.
    split; [assumption|].
    destruct peaks as [|idx0 [|idx1 rest]]; cbn [firstn] in H.
    + inversion H. reflexivity.
    + apply bind_Ok in H. destruct H as [r0 [H0 H]]. inversion H. exists r0.
      split; [assumption|reflexivity].
    + apply bind_Ok in H. destruct H as [r0 [H0 H]].
      apply bind_Ok in H. destruct H as [r1 [H1 H]]. inversion H.
      exists r0, r1. repeat split; assumption.
Qed.

(** X4.  Whenever the detector returns, it returns exactly two slots, and
    the second holds an interval only if the first does. *)
Theorem two_slots_filled_in_order values temps out :
  two_peak_half_intervals fsum values temps = Ok out ->
  exists r0 r1, out = [r0; r1] /\ (r1 <> None -> r0 <> None).
Proof.
  intros H. destruct (two_peak_cases _ _ _ H) as [[_ ->]|[peaks [Hp Hc]]].
  - exists None, None. split; [reflexivity|intros C; exact C].
  - destruct peaks as [|idx0 [|idx1 rest]].
    + subst out. exists None, None. split; [reflexivity|intros C; exact C].
    + destruct Hc as [r0 [_ ->]]. exists r0, None. split; [reflexivity|]. intros C. contradiction.
    + destruct Hc as (r0 & r1 & H0 & _ & ->). exists r0, r1. split; [reflexivity|]. intros _.
      assert (Hn : length values <> 1%nat).
      { intros E1. rewrite (ranked_peaks_one values E1) in Hp. discriminate. }
      eapply slot_interval_some; [eassumption|].
      destruct (ranked_peaks_In _ _ _ idx0 Hp ltac:(left; reflexivity)) as [c [Hcand Hic]].
      destruct (peak_candidates_In _ _ _ _ Hcand Hic) as [_ [E|Hpk]]; [contradiction|].
      eapply is_peak_true_pos. eassumption.
Qed.

(** X8.  When the temperatures are in non-decreasing order, every
    interval the detector returns has its left temperature at or below
    its right one. *)
Theorem intervals_oriented values temps out :
  nondecreasing temps = true ->
  two_peak_half_intervals fsum values temps = Ok out ->
  Forall oriented out.
Proof.
  intros Hs H. destruct (two_peak_cases _ _ _ H) as [[_ ->]|[peaks [Hp Hc]]].
  - repeat constructor.
  - destruct peaks as [|idx0 [|idx1 rest]].
    + subst out. repeat constructor.
    + destruct Hc as [r0 [H0 ->]]. repeat constructor.
      eapply slot_interval_oriented; eassumption.
    + destruct Hc as (r0 & r1 & H0 & H1 & ->).
      repeat constructor; eapply slot_interval_oriented; eassumption.
Qed.

(** ** Series without a peak *)

Lemma is_peak_false values n i :
  (i < length values)%nat -> n = length values ->
  (i < 5)%nat \/ (exists v, get values i = Ok v /\ (v >? 0) = false) ->
  is_peak fsum values n i = Ok false.
Proof.
  intros Hi -> Hc. unfold is_peak.
  destruct (get_lt values i Hi) as [v Hv]. rewrite Hv. cbn [bind].
  assert (Hl : exists b, (if Nat.eqb i 0 then Ok true
                          else p <- get values (i - 1) ;; Ok (v >=? p)) = Ok b).
  { destruct (Nat.eqb i 0); [exists true; reflexivity|].
    destruct (get_lt values (i - 1) ltac:(lia)) as [p ->]. cbn [bind]. eexists; reflexivity. }
  destruct Hl as [left_ok ->]. cbn [bind].
  assert (Hr : exists b, (if Nat.eqb i (length values - 1) then Ok true
                          else q <- get values (i + 1) ;; Ok (v >=? q)) = Ok b).
  { destruct (Nat.eqb i (length values - 1)) eqn:E; [exists true; reflexivity|].
    apply Nat.eqb_neq in E.
    destruct (get_lt values (i + 1) ltac:(lia)) as [q ->]. cbn [bind]. eexists; reflexivity. }
  destruct Hr as [right_ok ->]. cbn [bind].
  destruct Hc as [H5|[w [Hw Hnp]]].
  - replace (Nat.ltb i 5) with true by (symmetry; apply Nat.ltb_lt; assumption).
    destruct (left_ok && right_ok && (v >? 0)); reflexivity.
  - rewrite Hv in Hw. inversion Hw; subst w. rewrite Hnp, andb_false_r. reflexivity.
Qed.

Lemma collect_peaks_none values : forall idxs,
  Forall (fun i => is_peak fsum values (length values) i = Ok false) idxs ->
  collect_peaks fsum values (length values) idxs = Ok [].
Proof.
  intros idxs H. induction H as [|i rest Hi _ IH]; simpl; [reflexivity|].
  rewrite Hi, IH. reflexivity.
Qed.

(** X7.  A series of 0 or of 2 to 5 samples, and a series (not of length
    1) in which no sample is positive, has no peak: the detector returns
    [[None, None]] without looking at the temperatures. *)
Theorem no_peak_series values temps :
  length values <> 1%nat ->
  (length values < 6)%nat \/ Forall (fun v => (v >? 0) = false) values ->
  two_peak_half_intervals fsum values temps = Ok [None; None].
Proof.
  intros Hn Hc. unfold two_peak_half_intervals.
  destruct (Nat.eqb (length values) 0); [reflexivity|].
  unfold ranked_peaks, peak_candidates.
  replace (Nat.eqb (length values) 1) with false by (symmetry; apply Nat.eqb_neq; assumption).
  rewrite collect_peaks_none; [reflexivity|].
  apply Forall_forall. intros i Hi. apply in_seq in Hi.
  apply is_peak_false; [lia|reflexivity|].
  destruct Hc as [H6|Hall]; [left; lia|right].
  destruct (get_lt values i ltac:(lia)) as [v Hv]. exists v. split; [assumption|].
  rewrite Forall_forall in Hall. apply Hall. apply get_Ok in Hv.
  eapply nth_error_In; eassumption.
Qed.

End PeakDetectorMore.

(** ** Automatic windows *)

Lemma oriented_ordered l r : (l <=? r) = true -> ordered l /\ ordered r.
Proof.
  intros H. split; [eapply fl_leb_ordered_l|eapply fl_leb_ordered_r]; eassumption.
Qed.

Lemma build_window_oriented intervals :
  Forall oriented intervals -> window_ordered (build_window intervals).
Proof.
  intros Hall. rewrite build_window_present.
  assert (Hp : Forall (fun i => (fst i <=? snd i) = true) (present intervals)).
  { apply Forall_forall. intros [l r] Hin. apply present_In in Hin.
    rewrite Forall_forall in Hall. apply (Hall _ Hin). }
  destruct (present intervals) as [|[l0 r0] ps]; [exact I|].
  cbv zeta.
  assert (Hls : Forall ordered (l0 :: map fst ps)).
  { change (l0 :: map fst ps) with (map fst ((l0, r0) :: ps)).
    apply Forall_map. eapply Forall_impl; [|exact Hp]. intros i Hi.
    apply (oriented_ordered _ _ Hi). }
  assert (Hrs : Forall ordered (r0 :: map snd ps)).
  { change (r0 :: map snd ps) with (map snd ((l0, r0) :: ps)).
    apply Forall_map. eapply Forall_impl; [|exact Hp]. intros i Hi.
    apply (oriented_ordered _ _ Hi). }
  pose proof (py_min_le _ _ Hls) as Hminl. pose proof (py_max_ge _ _ Hrs) as Hmaxr.
  inversion Hminl as [|? ? Hl0 _]; subst. inversion Hmaxr as [|? ? Hr0 _]; subst.
  inversion Hp as [|? ? H0 _]; subst. cbn [fst snd] in H0.
  assert (Henv : (py_min l0 (map fst ps) <=? py_max r0 (map snd ps)) = true).
  { eapply fl_leb_trans; [exact Hl0|]. eapply fl_leb_trans; [exact H0|exact Hr0]. }
  destruct (py_max l0 (map fst ps) <=? py_min r0 (map snd ps)) eqn:Eov; cbn [negb window_ordered].
  - split; assumption.
  - split; assumption.
Qed.

Section AutoWindowsProperties.

Variable fsum : list float -> float.

Lemma slot_interval_returns values temps idx :
  (length values <= length temps)%nat -> (idx < length values)%nat ->
  exists r, slot_interval values temps idx = Ok r.
Proof.
  intros Hlen Hidx. unfold slot_interval.
  destruct (get_lt values idx Hidx) as [v ->]. cbn [bind].
  destruct (v <=? 0); [eexists; reflexivity|].
  destruct (half_max_bounds_spec values (v / 2) idx Hidx) as (lb & rb & -> & Hle & Hrb & _).
  cbn [bind].
  destruct (get_lt temps lb ltac:(lia)) as [tl ->]. cbn [bind].
  destruct (get_lt temps rb ltac:(lia)) as [tr ->]. cbn [bind].
  eexists; reflexivity.
Qed.

Lemma two_peak_returns values temps :
  (length values <= length temps)%nat ->
  exists r0 r1, two_peak_half_intervals fsum values temps = Ok [r0; r1].
Proof.
  intros Hlen. unfold two_peak_half_intervals.
  destruct (Nat.eqb (length values) 0); [exists None, None; reflexivity|].
  destruct (ranked_peaks_total fsum values) as [peaks Hpk]. rewrite Hpk. cbn [bind].
  pose proof (ranked_peaks_lt fsum values peaks) as Hlt.
  destruct peaks as [|idx0 [|idx1 rest]]; cbn [firstn].
  - exists None, None; reflexivity.
  - destruct (slot_interval_returns values temps idx0 Hlen) as [r0 ->].
    { apply Hlt; [assumption|left; reflexivity]. }
    cbn [bind]. exists r0, None; reflexivity.
  - destruct (slot_interval_returns values temps idx0 Hlen) as [r0 ->].
    { apply Hlt; [assumption|left; reflexivity]. }
    destruct (slot_interval_returns values temps idx1 Hlen) as [r1 ->].
    { apply Hlt; [assumption|right; left; reflexivity]. }
    cbn [bind]. exists r0, r1; reflexivity.
Qed.

Lemma two_peak_shape values temps out :
  two_peak_half_intervals fsum values temps = Ok out ->
  exists r0 r1, out = [r0; r1] /\ (r1 <> None -> r0 <> None) /\
    (nondecreasing temps = true -> oriented r0 /\ oriented r1).
Proof.
  intros H. destruct (two_peak_cases fsum _ _ _ H) as [[_ ->]|[peaks [Hp Hc]]].
  - exists None, None. repeat split; try exact I. intros C; exact C.
  - destruct peaks as [|idx0 [|idx1 rest]].
    + subst out. exists None, None. repeat split; try exact I. intros C; exact C.
    + destruct Hc as [r0 [H0 ->]]. exists r0, None. split; [reflexivity|]. split.
      * intros C. contradiction.
      * intros Hs. split; [|exact I]. eapply slot_interval_oriented; eassumption.
    + destruct Hc as (r0 & r1 & H0 & H1 & ->). exists r0, r1. split; [reflexivity|]. split.
      * intros _.
        assert (Hn : length values <> 1%nat).
        { intros E1. rewrite (ranked_peaks_one fsum values E1) in Hp. discriminate. }
        eapply slot_interval_some; [eassumption|].
        destruct (ranked_peaks_In _ _ _ idx0 Hp ltac:(left; reflexivity)) as [c [Hcand Hic]].
        destruct (peak_candidates_In _ _ _ _ Hcand Hic) as [_ [E|Hpk]]; [contradiction|].
        eapply is_peak_true_pos. eassumption.
      * intros Hs. split; eapply slot_interval_oriented; eassumption.
Qed.

Lemma auto_windows_cases c_vals x_vals temps primary secondary :
  auto_windows_from_scan fsum c_vals x_vals temps = Ok (primary, secondary) ->
  exists c0 c1 chi0 chi1,
    two_peak_half_intervals fsum c_vals temps = Ok [c0; c1] /\
    two_peak_half_intervals fsum x_vals temps = Ok [chi0; chi1] /\
    primary = build_window [c0; chi0] /\
    secondary = build_window [c1; chi1].
Proof.
  unfold auto_windows_from_scan. intros H.
  apply bind_Ok in H. destruct H as [c_ints [Hc H]].
  apply bind_Ok in H. destruct H as [chi_ints [Hx H]].
  destruct (two_peak_shape _ _ _ Hc) as (c0 & c1 & -> & _).
  destruct (two_peak_shape _ _ _ Hx) as (chi0 & chi1 & -> & _).
  exists c0, c1, chi0, chi1. cbn in H.
  split; [assumption|]. split; [assumption|].
  destruct c1 as [[? ?]|], chi1 as [[? ?]|]; cbn in H; inversion H; split; reflexivity.
Qed.

(** X10.  When neither series is longer than the list of temperatures,
    [auto_windows_from_scan] raises nothing: it returns a pair of
    optional windows. *)
Theorem auto_windows_returns c_vals x_vals temps :
  (length c_vals <= length temps)%nat -> (length x_vals <= length temps)%nat ->
  exists primary secondary,
    auto_windows_from_scan fsum c_vals x_vals temps = Ok (primary, secondary).
Proof.
  intros Hc Hx. unfold auto_windows_from_scan.
  destruct (two_peak_returns c_vals temps Hc) as (c0 & c1 & ->).
  destruct (two_peak_returns x_vals temps Hx) as (chi0 & chi1 & ->).
  cbn. destruct (is_not_none c1 || is_not_none chi1); eexists; eexists; reflexivity.
Qed.

(** X11.  Whenever [auto_windows_from_scan] returns, the primary window
    is [build_window] of the two first slots and the secondary is
    [build_window] of the two second slots, whichever way the guard on
    the second slots goes; the primary is [None] exactly when both first
    slots are, and then the secondary is [None] as well. *)
Theorem auto_windows_from_slots c_vals x_vals temps primary secondary :
  auto_windows_from_scan fsum c_vals x_vals temps = Ok (primary, secondary) ->
  exists c0 c1 chi0 chi1,
    two_peak_half_intervals fsum c_vals temps = Ok [c0; c1] /\
    two_peak_half_intervals fsum x_vals temps = Ok [chi0; chi1] /\
    primary = build_window [c0; chi0] /\
    secondary = build_window [c1; chi1] /\
    (primary = None <-> c0 = None /\ chi0 = None) /\
    (primary = None -> secondary = None).
Proof.
  intros H.
  destruct (auto_windows_cases _ _ _ _ _ H) as (c0 & c1 & chi0 & chi1 & Hc & Hx & Hp & Hs).
  exists c0, c1, chi0, chi1. do 4 (split; [assumption|]).
  destruct (two_peak_shape _ _ _ Hc) as (a0 & a1 & Ea & Ha & _).
  destruct (two_peak_shape _ _ _ Hx) as (b0 & b1 & Eb & Hb & _).
  inversion Ea; subst a0 a1. inversion Eb; subst b0 b1.
  assert (Hiff : primary = None <-> c0 = None /\ chi0 = None).
  { subst primary. rewrite build_window_present.
    destruct c0 as [[? ?]|], chi0 as [[? ?]|]; cbn;
      repeat match goal with |- context [if ?b then _ else _] => destruct b end;
      split; try discriminate; try tauto; intros [? ?]; discriminate. }
  split; [assumption|].
  intros Hn. apply Hiff in Hn. destruct Hn as [-> ->].
  destruct c1 as [i1|]; [exfalso; apply Ha; [discriminate|reflexivity]|].
  destruct chi1 as [j1|]; [exfalso; apply Hb; [discriminate|reflexivity]|].
  subst secondary. reflexivity.
Qed.

(** X12.  With the temperatures in non-decreasing order, both windows
    that [auto_windows_from_scan] returns have their envelope and their
    overlap in order. *)
Theorem auto_windows_ordered c_vals x_vals temps primary secondary :
  nondecreasing temps = true ->
  auto_windows_from_scan fsum c_vals x_vals temps = Ok (primary, secondary) ->
  window_ordered primary /\ window_ordered secondary.
Proof.
  intros Hs H.
  destruct (auto_windows_cases _ _ _ _ _ H) as (c0 & c1 & chi0 & chi1 & Hc & Hx & -> & ->).
  destruct (two_peak_shape _ _ _ Hc) as (a0 & a1 & Ea & _ & Ha).
  destruct (two_peak_shape _ _ _ Hx) as (b0 & b1 & Eb & _ & Hb).
  inversion Ea; subst a0 a1. inversion Eb; subst b0 b1.
  destruct (Ha Hs) as [Ha0 Ha1]. destruct (Hb Hs) as [Hb0 Hb1].
  split; apply build_window_oriented; repeat constructor; assumption.
Qed.

End AutoWindowsProperties.

(** ** Exceptions of the Peak Detector *)

Section DetectorErrors.

Variable fsum : list float -> float.

Lemma get_outcome {A : Type} (l : list A) i :
  match get l i with
  | Ok _ => (i < length l)%nat
  | Raise e => e = IndexError /\ (length l <= i)%nat
  end.
Proof.
  unfold get. destruct (nth_error l i) eqn:E.
  - apply nth_error_Some. congruence.
  - split; [reflexivity|]. apply nth_error_None. assumption.
Qed.

Lemma slot_interval_raises values temps idx e :
  (idx < length values)%nat ->
  slot_interval values temps idx = Raise e ->
  e = IndexError /\ (length temps < length values)%nat.
Proof.
  intros Hidx. unfold slot_interval.
  destruct (get_lt values idx Hidx) as [v ->]. cbn [bind].
  destruct (v <=? 0); [discriminate|].
  destruct (half_max_bounds_spec values (v / 2) idx Hidx) as (lb & rb & -> & Hle & Hrb & _).
  cbn [bind].
  pose proof (get_outcome temps lb) as Hl. destruct (get temps lb) as [tl|el]; cbn [bind].
  - pose proof (get_outcome temps rb) as Hr. destruct (get temps rb) as [tr|er]; cbn [bind].
    + discriminate.
    + intros H. inversion H; subst. destruct Hr as [-> Hr]. split; [reflexivity|lia].
  - intros H. inversion H; subst. destruct Hl as [-> Hl]. split; [reflexivity|lia].
Qed.

(** X9.  The detector raises nothing but [IndexError], and only when
    there are fewer temperatures than values. *)
Theorem detector_raises_only_index_error values temps e :
  two_peak_half_intervals fsum values temps = Raise e ->
  e = IndexError /\ (length temps < length values)%nat.
Proof.
  unfold two_peak_half_intervals.
  destruct (Nat.eqb (length values) 0); [discriminate|].
  destruct (ranked_peaks_total fsum values) as [peaks Hpk]. rewrite Hpk. cbn [bind].
  pose proof (fun i => ranked_peaks_lt fsum values peaks i Hpk) as Hlt.
  destruct peaks as [|idx0 [|idx1 rest]]; cbn [firstn].
  - discriminate.
  - destruct (slot_interval values temps idx0) as [r0|e0] eqn:E0; cbn [bind]; [discriminate|].
    intros H. inversion H; subst.
    apply (slot_interval_raises values temps idx0); [apply Hlt; left; reflexivity|assumption].
  - destruct (slot_interval values temps idx0) as [r0|e0] eqn:E0; cbn [bind].
    + destruct (slot_interval values temps idx1) as [r1|e1] eqn:E1; cbn [bind]; [discriminate|].
      intros H. inversion H; subst.
      apply (slot_interval_raises values temps idx1);
        [apply Hlt; right; left; reflexivity|assumption].
    + intros H. inversion H; subst.
      apply (slot_interval_raises values temps idx0); [apply Hlt; left; reflexivity|assumption].
Qed.

End DetectorErrors.

(** ** Signs of the step count *)

Section Signs.

Local Open Scope Z_scope.

Lemma SFcompare_Eq_sub x y :
  SFcompare y x = Some Eq -> SFnonneg (SF64sub x y) = true.
Proof.
  destruct x as [sx|sx| |sx mx ex], y as [sy|sy| |sy my ey];
    try (destruct sx); try (destruct sy); try discriminate; try reflexivity.
  all: unfold SFcompare; intros H.
  all: destruct (Z.compare_spec ey ex) as [E|E|E]; try discriminate H; subst ey.
  all: change (Pos.compare_cont Eq my mx) with (Pos.compare my mx) in H;
       destruct (Pos.compare_spec my mx) as [Em|Em|Em]; simpl in H; try discriminate H;
       subst my.
  all: unfold SF64sub, SFsub, cond_Zopp; rewrite Z.min_id.
  all: rewrite Z.sub_diag; reflexivity.
Qed.

Lemma SFsub_nonneg x y :
  valid_binary x = true -> valid_binary y = true ->
  SFleb y x = true -> SFnonneg (SF64sub x y) = true.
Proof.
  intros Vx Vy Hle.
  destruct (SFltb y x) eqn:Hlt.
  - pose proof (SFsub_pos x y Vx Vy Hlt) as Hp.
    destruct (SF64sub x y) as [s|[]| |[] m e]; try discriminate Hp; reflexivity.
  - apply SFcompare_Eq_sub. unfold SFleb, SFltb in *.
    destruct (SFcompare y x) as [[]|]; try discriminate; reflexivity.
Qed.

Lemma SFdiv_nonneg d c :
  SFnonneg d = true -> SFltb (S754_zero false) c = true -> SFnonneg (SF64div d c) = true.
Proof.
  intros Hd Hc.
  destruct c as [sc|[]| |[] mc ec]; try discriminate Hc;
    destruct d as [sd|[]| |[] md ed]; try discriminate Hd; try reflexivity.
  unfold SF64div, SFdiv, SFdiv_core_binary. rewrite div_eucl_pair.
  match goal with |- context [binary_round_aux _ _ ?s ?m ?e ?l] =>
    assert (Hm : 0 <= m);
    [| pose proof (binary_round_aux_shape s m e l Hm) as H;
       destruct (binary_round_aux prec emax s m e l) as [?|?| |? ? ?];
       try contradiction; subst; reflexivity ]
  end.
  apply Z.div_pos; [|lia].
  match goal with |- context [match ?s with Z0 => _ | Zpos _ => _ | Zneg _ => _ end] =>
    destruct s eqn:E; try lia end.
  apply Z.shiftl_nonneg. lia.
Qed.

Lemma round_half_even_nonneg m e : 0 <= round_half_even m e.
Proof.
  unfold round_half_even. destruct e as [|p|p]; [lia| |].
  - rewrite Z.shiftl_mul_pow2 by lia. apply Z.mul_nonneg_nonneg; [lia|].
    apply Z.pow_nonneg. lia.
  - assert (Hd : 0 < 2 ^ Zpos p) by (apply Z.pow_pos_nonneg; lia).
    assert (Hq : 0 <= Zpos m / 2 ^ Zpos p) by (apply Z.div_pos; lia).
    destruct (2 * (Zpos m mod 2 ^ Zpos p) ?= 2 ^ Zpos p); [|lia|lia].
    destruct (Z.even _); lia.
Qed.

End Signs.

Lemma py_round_nonneg q n :
  SFnonneg (Prim2SF q) = true -> py_round q = Ok n -> (0 <= n)%Z.
Proof.
  unfold py_round. destruct (Prim2SF q) as [s|s| |s m e]; try discriminate.
  - intros _ H. inversion H. lia.
  - destruct s; [discriminate|]. intros _ H. inversion H. apply round_half_even_nonneg.
Qed.

Lemma scan_steps_nonneg tc_min tc_max tc_step n :
  (tc_min <=? tc_max) = true -> (tc_step >? 0) = true ->
  scan_steps tc_min tc_max tc_step = Ok n -> (0 <= n)%Z.
Proof.
  intros Hle Hpos H. unfold scan_steps in H.
  apply bind_Ok in H. destruct H as [q [Hq H]].
  unfold py_div in Hq. destruct (tc_step =? 0); [discriminate|]. inversion Hq; subst q.
  apply (py_round_nonneg _ _) in H; [assumption|].
  rewrite FloatAxioms.div_spec, FloatAxioms.sub_spec.
  rewrite FloatAxioms.leb_spec in Hle. rewrite FloatAxioms.ltb_spec in Hpos.
  apply SFdiv_nonneg; [|exact Hpos].
  apply SFsub_nonneg; [apply Prim2SF_valid|apply Prim2SF_valid|exact Hle].
Qed.

Lemma SF_first_candidate x y :
  SFfinite x = true -> SFfinite y = true ->
  SFeqb (SF64add x (SF64mul (S754_zero false) y)) x = true.
Proof.
  destruct x as [sx|sx| |sx mx ex], y as [sy|sy| |sy my ey]; try discriminate; intros _ _;
    try (destruct sx); try (destruct sy); cbn; try reflexivity;
    unfold SFeqb, SFcompare; rewrite Z.compare_refl, ?Pos.compare_cont_refl; 
    try reflexivity.
Qed.

Lemma SF_eqb_not_ltb a b : SFeqb a b = true -> SFltb a b = false.
Proof. order_solve. Qed.

Lemma SF_eqb_leb_not_ltb a b c :
  SFeqb a b = true -> SFleb b c = true -> SFltb c a = false.
Proof. order_solve. Qed.

Lemma first_candidate tc_min tc_max tc_step :
  is_finite tc_min = true -> is_finite tc_step = true -> (tc_min <=? tc_max) = true ->
  candidate tc_min tc_step 0 = Ok (tc_min + 0 * tc_step) /\
  (tc_min + 0 * tc_step =? tc_min) = true /\
  out_of_range tc_min tc_max (tc_min + 0 * tc_step) = false.
Proof.
  intros Hf Hs Hle. split; [reflexivity|].
  rewrite is_finite_spec in Hf, Hs. rewrite FloatAxioms.leb_spec in Hle.
  assert (He : (tc_min + 0 * tc_step =? tc_min) = true).
  { rewrite FloatAxioms.eqb_spec, FloatAxioms.add_spec, FloatAxioms.mul_spec.
    change (Prim2SF 0) with (S754_zero false). apply SF_first_candidate; assumption. }
  split; [assumption|].
  unfold out_of_range. rewrite FloatAxioms.eqb_spec in He.
  rewrite !FloatAxioms.ltb_spec.
  rewrite (SF_eqb_not_ltb _ _ He), (SF_eqb_leb_not_ltb _ _ _ He Hle). reflexivity.
Qed.

Lemma py_range_succ n : (0 <= n)%Z -> exists rest, py_range (n + 1) = 0%Z :: rest.
Proof.
  intros Hn. unfold py_range.
  replace (Z.to_nat (n + 1)) with (S (Z.to_nat n)) by lia.
  cbn [seq map]. eexists; reflexivity.
Qed.

(** ** The first record of the table *)

Section TableStart.

Variable fsum : list float -> float.
Variable libm_log : float -> float.
Variable libm_pow : float -> float -> float.

(** X17.  When [tc_min <= tc_max] and the step is positive and finite, a
    scan that returns has a table that is not empty, and its first
    record is the candidate of step 0, [tc_min + 0 * tc_step], which
    equals [tc_min]. *)
Theorem table_starts_at_tc_min temps mags t_min t_max tc_min tc_max tc_step results best :
  (tc_min <=? tc_max) = true -> (tc_step >? 0) = true -> is_finite tc_step = true ->
  run_loglog_tc_scan fsum libm_log libm_pow temps mags t_min t_max tc_min tc_max tc_step
    = Ok (results, best) ->
  exists r rest,
    results = r :: rest /\ tc_candidate r = tc_min + 0 * tc_step /\
    (tc_candidate r =? tc_min) = true.
Proof.
  intros Hle Hpos Hfin H. unfold run_loglog_tc_scan in H.
  apply bind_Ok in H. destruct H as [n [Hn H]].
  apply bind_Ok in H. destruct H as [rs [Hrs H]]. inversion H; subst rs best; clear H.
  destruct (scan_steps_finite libm_log libm_pow _ _ _ _ Hn) as [Hfmin _].
  pose proof (scan_steps_nonneg _ _ _ _ Hle Hpos Hn) as Hn0.
  destruct (py_range_succ n Hn0) as [steps Hsteps]. rewrite Hsteps in Hrs.
  cbn [scan_loop] in Hrs.
  destruct (first_candidate tc_min tc_max tc_step Hfmin Hfin Hle) as (Hc & He & Ho).
  rewrite Hc in Hrs. cbn [bind] in Hrs. rewrite Ho in Hrs.
  apply bind_Ok in Hrs. destruct Hrs as [r [Hr Hrs]].
  apply bind_Ok in Hrs. destruct Hrs as [rest [_ Hrs]]. inversion Hrs; subst results.
  exists r, rest. split; [reflexivity|].
  apply fit_candidate_tc in Hr. rewrite Hr. split; [reflexivity|assumption].
Qed.

End TableStart.

(** ** Outcomes of the scan *)

Lemma map_result_outcome {A B : Type} (f : A -> result B) e : forall l,
  Forall (fun a => (exists b, f a = Ok b) \/ f a = Raise e) l ->
  (exists out, map_result f l = Ok out) \/ map_result f l = Raise e.
Proof.
  intros l H. induction H as [|a rest Ha _ IH]; simpl.
  - left. eexists; reflexivity.
  - destruct Ha as [[b ->]| ->]; [|right; reflexivity]. cbn [bind].
    destruct IH as [[out ->]| ->]; [left; eexists; reflexivity|right; reflexivity].
Qed.

Lemma filter_length_le_combine {A B : Type} (f : A * B -> bool) (l1 : list A) (l2 : list B) :
  (length (filter f (combine l1 l2)) <= Nat.min (length l1) (length l2))%nat.
Proof.
  rewrite <- length_combine. apply filter_length_le.
Qed.

Lemma filter_length_mono {A : Type} (f g : A -> bool) : forall l,
  (forall a, In a l -> f a = true -> g a = true) ->
  (length (filter f l) <= length (filter g l))%nat.
Proof.
  induction l as [|a l IH]; intros H; simpl; [lia|].
  assert (IH' : (length (filter f l) <= length (filter g l))%nat).
  { apply IH. intros b Hb. apply H. right. assumption. }
  destruct (f a) eqn:Ef.
  - rewrite (H a (or_introl eq_refl) Ef). simpl. lia.
  - destruct (g a); simpl; lia.
Qed.

Section ScanOutcomes.

Variable fsum : list float -> float.
Variable libm_log : float -> float.
Variable libm_pow : float -> float -> float.

Lemma py_square_outcome v :
  (exists sq, py_square libm_pow v = Ok sq) \/ py_square libm_pow v = Raise OverflowError.
Proof.
  unfold py_square.
  repeat match goal with |- context [if ?b then _ else _] => destruct b end;
    try (left; eexists; reflexivity); right; reflexivity.
Qed.

Lemma sentinel_facts tc n : ((n < 4)%nat -> True) -> record_facts_of tc n (sentinel tc n).
Proof.
  intros _. unfold record_facts_of. cbn. repeat split; try reflexivity; discriminate.
Qed.

Lemma fit_record_of_outcome tc x_vals y_vals :
  (exists rec, fit_record_of fsum libm_pow tc x_vals y_vals = Ok rec /\
               record_facts_of tc (length x_vals) rec) \/
  fit_record_of fsum libm_pow tc x_vals y_vals = Raise OverflowError.
Proof.
  unfold fit_record_of.
  destruct (Nat.ltb (length x_vals) 4) eqn:E4.
  { left. eexists. split; [reflexivity|]. apply sentinel_facts. trivial. }
  apply Nat.ltb_ge in E4.
  cbv zeta.
  destruct (_ =? 0) eqn:Ed.
  { left. eexists. split; [reflexivity|]. apply sentinel_facts. trivial. }
  unfold py_div. rewrite Ed, float_of_len_nonzero by lia. cbn [bind].
  match goal with |- context [map_result ?f y_vals] =>
    assert (Ht : (exists out, map_result f y_vals = Ok out) \/
                 map_result f y_vals = Raise OverflowError)
      by (apply map_result_outcome, Forall_forall; intros y _; apply py_square_outcome)
  end.
  destruct Ht as [[sq_tot ->]| ->]; [|right; reflexivity].
  cbn [bind].
  match goal with |- context [map_result ?f (combine x_vals y_vals)] =>
    assert (Hs : (exists out, map_result f (combine x_vals y_vals) = Ok out) \/
                 map_result f (combine x_vals y_vals) = Raise OverflowError)
      by (apply map_result_outcome, Forall_forall; intros xy _; apply py_square_outcome)
  end.
  destruct Hs as [[sq_res ->]| ->]; [|right; reflexivity].
  cbn [bind].
  left.
  destruct (fsum sq_tot =? 0) eqn:Et.
  - cbn [bind]. eexists. split; [reflexivity|].
    unfold record_facts_of. cbn.
    repeat split; try reflexivity; try lia;
      match goal with H : _ = true |- _ => rewrite !andb_true_iff in H; tauto end.
  - cbn [bind]. eexists. split; [reflexivity|].
    unfold record_facts_of. cbn.
    repeat split; try reflexivity; try lia;
      match goal with H : _ = true |- _ => rewrite !andb_true_iff in H; tauto end.
Qed.

Lemma fit_candidate_outcome temps mags t_min t_max tc :
  (exists rec, fit_candidate fsum libm_log libm_pow temps mags t_min t_max tc = Ok rec /\
               tc_candidate rec = tc /\ record_facts temps mags t_min t_max rec) \/
  fit_candidate fsum libm_log libm_pow temps mags t_min t_max tc = Raise OverflowError.
Proof.
  rewrite fit_candidate_eq. cbv zeta.
  match goal with |- context [fit_record_of _ _ tc ?xs ?ys] =>
    destruct (fit_record_of_outcome tc xs ys) as [[rec [-> Hf]]| ->]; [left|right; reflexivity]
  end.
  exists rec. split; [reflexivity|].
  rewrite length_map in Hf. pose proof Hf as [Htc _]. split; [assumption|].
  unfold record_facts. rewrite Htc. assumption.
Qed.

Lemma candidate_outcome tc_min tc_step i :
  (exists tc, candidate tc_min tc_step i = Ok tc) \/
  candidate tc_min tc_step i = Raise OverflowError.
Proof.
  unfold candidate, float_of_int. destruct (is_finite _).
  - left. eexists; reflexivity.
  - right. reflexivity.
Qed.

Lemma scan_loop_outcome temps mags t_min t_max tc_min tc_max tc_step : forall steps,
  (exists results,
     scan_loop fsum libm_log libm_pow temps mags t_min t_max tc_min tc_max tc_step steps
       = Ok results /\
     Forall (record_facts temps mags t_min t_max) results) \/
  scan_loop fsum libm_log libm_pow temps mags t_min t_max tc_min tc_max tc_step steps
    = Raise OverflowError.
Proof.
  induction steps as [|i rest IH]; cbn [scan_loop].
  - left. exists []. split; [reflexivity|constructor].
  - destruct (candidate_outcome tc_min tc_step i) as [[tc ->]| ->]; [|right; reflexivity].
    cbn [bind]. destruct (out_of_range tc_min tc_max tc); [exact IH|].
    destruct (fit_candidate_outcome temps mags t_min t_max tc) as [[rec [-> [_ Hf]]]| ->];
      [|right; reflexivity].
    cbn [bind]. destruct IH as [[results [-> Hall]]| ->]; [|right; reflexivity].
    cbn [bind]. left. exists (rec :: results). split; [reflexivity|].
    constructor; assumption.
Qed.

Lemma py_round_outcome q :
  match py_round q with
  | Ok _ => is_finite q = true
  | Raise ValueError => is_nan q = true
  | Raise OverflowError => is_nan q = false
  | Raise _ => False
  end.
Proof.
  unfold py_round. rewrite is_finite_spec, is_nan_spec.
  destruct (Prim2SF q); reflexivity.
Qed.

Lemma scan_outcome temps mags t_min t_max tc_min tc_max tc_step :
  match run_loglog_tc_scan fsum libm_log libm_pow temps mags t_min t_max
          tc_min tc_max tc_step with
  | Ok _ => (tc_step =? 0) = false /\ is_finite ((tc_max - tc_min) / tc_step) = true
  | Raise ZeroDivisionError => (tc_step =? 0) = true
  | Raise ValueError => (tc_step =? 0) = false /\ is_nan ((tc_max - tc_min) / tc_step) = true
  | Raise OverflowError => (tc_step =? 0) = false /\ is_nan ((tc_max - tc_min) / tc_step) = false
  | Raise IndexError => False
  end.
Proof.
  unfold run_loglog_tc_scan, scan_steps, py_div.
  destruct (tc_step =? 0) eqn:E0; cbn [bind]; [reflexivity|].
  pose proof (py_round_outcome ((tc_max - tc_min) / tc_step)) as Hr.
  destruct (py_round ((tc_max - tc_min) / tc_step)) as [n|[]]; cbn [bind];
    try contradiction; try (split; [reflexivity|assumption]).
  destruct (scan_loop_outcome temps mags t_min t_max tc_min tc_max tc_step
              (py_range (n + 1))) as [[results [-> _]]| ->]; cbn [bind].
  - split; [reflexivity|assumption].
  - split; [reflexivity|]. apply fl_finite_ordered in Hr. exact Hr.
Qed.

(** X13.  What the scan raises: [ZeroDivisionError] exactly when the step
    is zero; [ValueError] exactly when the step is not zero and the
    quotient [(tc_max - tc_min) / tc_step] is NaN; never [IndexError];
    and with a non-zero step and a finite quotient it either returns or
    raises [OverflowError]. *)
Theorem scan_exceptions temps mags t_min t_max tc_min tc_max tc_step :
  let run := run_loglog_tc_scan fsum libm_log libm_pow temps mags t_min t_max
               tc_min tc_max tc_step in
  (run = Raise ZeroDivisionError <-> (tc_step =? 0) = true) /\
  (run = Raise ValueError <->
   (tc_step =? 0) = false /\ is_nan ((tc_max - tc_min) / tc_step) = true) /\
  run <> Raise IndexError /\
  ((tc_step =? 0) = false -> is_finite ((tc_max - tc_min) / tc_step) = true ->
   (exists results best, run = Ok (results, best)) \/ run = Raise OverflowError).
Proof.
  cbv zeta.
  pose proof (scan_outcome temps mags t_min t_max tc_min tc_max tc_step) as Ho.
  destruct (run_loglog_tc_scan fsum libm_log libm_pow temps mags t_min t_max
              tc_min tc_max tc_step) as [[results best]|[]].
  - destruct Ho as [H0 Hf]. apply fl_finite_ordered in Hf. unfold ordered in Hf.
    repeat split; try discriminate; try (intros [? ?]; congruence); try congruence.
    intros _ _. left. exists results, best. reflexivity.
  - repeat split; try discriminate; try assumption; try (intros [? ?]; congruence);
      try congruence.
  - destruct Ho as [H0 Hn].
    repeat split; try discriminate; try assumption; try congruence.
    intros _ Hf. apply fl_finite_ordered in Hf. unfold ordered in Hf. congruence.
  - destruct Ho as [H0 Hn].
    repeat split; try discriminate; try (intros [? ?]; congruence); try congruence.
    intros _ _. right. reflexivity.
  - contradiction.
Qed.

Lemma scan_results_facts temps mags t_min t_max tc_min tc_max tc_step results best :
  run_loglog_tc_scan fsum libm_log libm_pow temps mags t_min t_max tc_min tc_max tc_step
    = Ok (results, best) ->
  Forall (record_facts temps mags t_min t_max) results /\ best = select_best results.
Proof.
  unfold run_loglog_tc_scan. intros H.
  apply bind_Ok in H. destruct H as [n [_ H]].
  destruct (scan_loop_outcome temps mags t_min t_max tc_min tc_max tc_step
              (py_range (n + 1))) as [[rs [E Hall]]|E]; rewrite E in H; [|discriminate].
  cbn [bind] in H. inversion H; subst. split; [assumption|reflexivity].
Qed.

(** X14.  Every record of the table of a scan that returns: its
    [n_points] is the number of pairs that qualify for its candidate, at
    most the length of the shorter input list; [beta] is the slope; with
    fewer than four points it is the sentinel; and if it is valid it has
    four points or more, a positive slope and [0 < r_squared <= 1]. *)
Theorem table_records temps mags t_min t_max tc_min tc_max tc_step results best :
  run_loglog_tc_scan fsum libm_log libm_pow temps mags t_min t_max tc_min tc_max tc_step
    = Ok (results, best) ->
  Forall (fun r =>
            n_points r = length (fit_pairs temps mags t_min t_max (tc_candidate r)) /\
            (n_points r <= Nat.min (length temps) (length mags))%nat /\
            beta r = slope r /\
            ((n_points r < 4)%nat -> r = sentinel (tc_candidate r) (n_points r)) /\
            (is_valid r = true ->
             (4 <= n_points r)%nat /\ (slope r >? 0) = true /\
             (r_squared r >? 0) = true /\ (r_squared r <=? 1) = true)) results.
Proof.
  intros H. destruct (scan_results_facts _ _ _ _ _ _ _ _ _ H) as [Hall _].
  eapply Forall_impl; [|exact Hall]. intros r (_ & Hn & Hb & Hs & Hv).
  split; [assumption|]. split.
  { rewrite Hn. unfold fit_pairs. apply filter_length_le_combine. }
  split; [assumption|]. split.
  - intros H4. rewrite Hn in H4 |- *. apply Hs. assumption.
  - intros Hval. rewrite Hn. apply Hv. assumption.
Qed.

(** X15.  The best fit of a scan, when there is one, is a record of the
    table with four fit points or more, [beta] equal to the slope, a
    positive slope and [0 < r_squared <= 1]. *)
Theorem best_is_proper_fit temps mags t_min t_max tc_min tc_max tc_step results b :
  run_loglog_tc_scan fsum libm_log libm_pow temps mags t_min t_max tc_min tc_max tc_step
    = Ok (results, Some b) ->
  In b results /\ (4 <= n_points b)%nat /\ beta b = slope b /\
  (slope b >? 0) = true /\ (r_squared b >? 0) = true /\ (r_squared b <=? 1) = true /\
  n_points b = length (fit_pairs temps mags t_min t_max (tc_candidate b)).
Proof.
  intros H. destruct (scan_results_facts _ _ _ _ _ _ _ _ _ H) as [Hall Hb].
  pose proof (select_best_spec results) as Hs. rewrite <- Hb in Hs.
  destruct Hs as (k & Hk & (Hval & _) & _).
  apply nth_error_In in Hk.
  rewrite Forall_forall in Hall. destruct (Hall _ Hk) as (_ & Hn & Hbeta & _ & Hv).
  destruct (Hv Hval) as (H4 & Hsl & Hr0 & Hr1).
  rewrite Hn. repeat split; try assumption.
Qed.

(** X16.  In the table of a scan, a record whose candidate is at or
    above the candidate of another has at least as many fit points. *)
Theorem fit_points_monotone temps mags t_min t_max tc_min tc_max tc_step results best r1 r2 :
  run_loglog_tc_scan fsum libm_log libm_pow temps mags t_min t_max tc_min tc_max tc_step
    = Ok (results, best) ->
  In r1 results -> In r2 results ->
  (tc_candidate r1 <=? tc_candidate r2) = true ->
  (n_points r1 <= n_points r2)%nat.
Proof.
  intros H H1 H2 Hle. destruct (scan_results_facts _ _ _ _ _ _ _ _ _ H) as [Hall _].
  rewrite Forall_forall in Hall.
  destruct (Hall _ H1) as (_ & -> & _). destruct (Hall _ H2) as (_ & -> & _).
  unfold fit_pairs. apply filter_length_mono. intros [t m] _ Hq.
  apply (qualifies_spec libm_log libm_pow) in Hq. apply (qualifies_spec libm_log libm_pow).
  destruct Hq as (Ha & Hb & Hc & Hd). repeat split; try assumption.
  eapply fl_ltb_leb_trans; eassumption.
Qed.

End ScanOutcomes.

(** ** The readers *)

Section CsvProperties.

Variable py_float : String.string -> option float.

Lemma full_rows_lengths rows temps e_vals m_vals c_vals x_vals :
  full_rows py_float rows = (temps, e_vals, m_vals, c_vals, x_vals) ->
  length e_vals = length temps /\ length m_vals = length temps /\
  length c_vals = length temps /\ length x_vals = length temps /\
  (length temps <= length rows)%nat.
Proof.
  revert temps e_vals m_vals c_vals x_vals.
  induction rows as [|row rest IH]; intros temps e_vals m_vals c_vals x_vals H.
  - inversion H. repeat split; simpl; lia.
  - cbn [full_rows] in H.
    destruct (full_rows py_float rest) as [[[[ts es] ms] cs] xs].
    specialize (IH ts es ms cs xs eq_refl).
    destruct (full_row py_float row) as [[[[[t e] m] c] x]|]; inversion H; subst;
      simpl; repeat split; lia.
Qed.

Lemma full_row_scan_row row t e m c x :
  full_row py_float row = Some (t, e, m, c, x) -> scan_row py_float row = Some (t, m).
Proof.
  unfold full_row, scan_row.
  destruct row as [|f0 [|f1 [|f2 [|f3 [|f4 rest]]]]]; try discriminate.
  cbn.
  destruct (py_float f0); [|discriminate]. destruct (py_float f1); [|discriminate].
  destruct (py_float f2); [|discriminate]. destruct (py_float f3); [|discriminate].
  destruct (py_float f4); [|discriminate]. intros H. inversion H. reflexivity.
Qed.

Lemma full_rows_scan_rows rows temps e_vals m_vals c_vals x_vals :
  Forall (fun row => is_not_none (scan_row py_float row) = true ->
                     is_not_none (full_row py_float row) = true) rows ->
  full_rows py_float rows = (temps, e_vals, m_vals, c_vals, x_vals) ->
  scan_rows py_float rows = (temps, m_vals).
Proof.
  intros Hall. revert temps e_vals m_vals c_vals x_vals.
  induction Hall as [|row rest Hrow _ IH]; intros temps e_vals m_vals c_vals x_vals H.
  - inversion H. reflexivity.
  - cbn [full_rows scan_rows] in *.
    destruct (full_rows py_float rest) as [[[[ts es] ms] cs] xs].
    rewrite (IH ts es ms cs xs eq_refl).
    destruct (full_row py_float row) as [[[[[t e] m] c] x]|] eqn:Ef.
    + rewrite (full_row_scan_row _ _ _ _ _ _ Ef). inversion H. reflexivity.
    + destruct (scan_row py_float row) as [[t m]|].
      * specialize (Hrow eq_refl). discriminate.
      * inversion H. reflexivity.
Qed.

(** X18.  The five lists that [read_full_scan_csv] returns have the same
    length, at most the number of rows after the header. *)
Theorem full_columns_aligned rows temps e_vals m_vals c_vals x_vals :
  read_full_scan_csv py_float rows = (temps, e_vals, m_vals, c_vals, x_vals) ->
  length e_vals = length temps /\ length m_vals = length temps /\
  length c_vals = length temps /\ length x_vals = length temps /\
  (length temps <= length rows - 1)%nat.
Proof.
  unfold read_full_scan_csv. intros H.
  destruct (full_rows_lengths _ _ _ _ _ _ H) as (He & Hm & Hc & Hx & Hle).
  repeat split; try assumption.
  destruct rows; simpl in *; lia.
Qed.

(** X19.  When every row after the header that [read_scan_csv] accepts
    is accepted by [read_full_scan_csv] as well, [read_scan_csv] returns
    the temperatures and the magnetizations of [read_full_scan_csv]. *)
Theorem readers_agree rows temps e_vals m_vals c_vals x_vals :
  Forall (fun row => is_not_none (scan_row py_float row) = true ->
                     is_not_none (full_row py_float row) = true) (tl rows) ->
  read_full_scan_csv py_float rows = (temps, e_vals, m_vals, c_vals, x_vals) ->
  read_scan_csv py_float rows = (temps, m_vals).
Proof.
  unfold read_full_scan_csv, read_scan_csv. apply full_rows_scan_rows.
Qed.

Variable fsum : list float -> float.

(** X20.  On the columns that [read_full_scan_csv] returns,
    [auto_windows_from_scan] raises nothing, whatever the file holds. *)
Theorem read_then_auto_windows rows temps e_vals m_vals c_vals x_vals :
  read_full_scan_csv py_float rows = (temps, e_vals, m_vals, c_vals, x_vals) ->
  exists primary secondary,
    auto_windows_from_scan fsum c_vals x_vals temps = Ok (primary, secondary).
Proof.
  unfold read_full_scan_csv. intros H.
  destruct (full_rows_lengths _ _ _ _ _ _ H) as (_ & _ & Hc & Hx & _).
  unfold auto_windows_from_scan.
  destruct (two_peak_returns fsum c_vals temps ltac:(lia)) as (c0 & c1 & ->).
  destruct (two_peak_returns fsum x_vals temps ltac:(lia)) as (chi0 & chi1 & ->).
  cbn. destruct (is_not_none c1 || is_not_none chi1); eexists; eexists; reflexivity.
Qed.

End CsvProperties.

(** ** The analysis of [main] *)

Section MainProperties.

Variable py_float : String.string -> option float.
Variable fsum : list float -> float.
Variable libm_log : float -> float.
Variable libm_pow : float -> float -> float.

Lemma main_cases args rows temps e_vals m_vals c_vals x_vals :
  read_full_scan_csv py_float rows = (temps, e_vals, m_vals, c_vals, x_vals) ->
  exists c0 c1 chi0 chi1,
    two_peak_half_intervals fsum c_vals temps = Ok [c0; c1] /\
    two_peak_half_intervals fsum x_vals temps = Ok [chi0; chi1] /\
    (c1 <> None -> c0 <> None) /\ (chi1 <> None -> chi0 <> None) /\
    (nondecreasing temps = true -> window_ordered (build_window [c0; chi0])) /\
    main py_float fsum libm_log libm_pow args rows =
    match build_window [c0; chi0] with
    | None => SystemExit
    | Some (auto_tmin, auto_tmax, auto_tcmin, auto_tcmax) =>
        let t_min := match tmin args with Some v => v | None => auto_tmin end in
        let t_max := match tmax args with Some v => v | None => auto_tmax end in
        let tc_min := match tcmin args with Some v => v | None => auto_tcmin end in
        let tc_max := match tcmax args with Some v => v | None => auto_tcmax end in
        match run_loglog_tc_scan fsum libm_log libm_pow temps m_vals
                t_min t_max tc_min tc_max (tcstep args) with
        | Raise e => Uncaught e
        | Ok (results, best) =>
            Analysed (auto_tmin, auto_tmax, auto_tcmin, auto_tcmax)
              (t_min, t_max, tc_min, tc_max) results best
        end
    end.
Proof.
  intros Hread. unfold main. rewrite Hread.
  unfold read_full_scan_csv in Hread.
  destruct (full_rows_lengths _ _ _ _ _ _ _ Hread) as (_ & _ & Hc & Hx & _).
  destruct (two_peak_returns fsum c_vals temps ltac:(lia)) as (c0 & c1 & Ec).
  destruct (two_peak_returns fsum x_vals temps ltac:(lia)) as (chi0 & chi1 & Ex).
  exists c0, c1, chi0, chi1.
  destruct (two_peak_shape fsum _ _ _ Ec) as (a0 & a1 & Ea & Ha & Hoa).
  destruct (two_peak_shape fsum _ _ _ Ex) as (b0 & b1 & Eb & Hb & Hob).
  inversion Ea; subst a0 a1. inversion Eb; subst b0 b1.
  do 4 (split; [assumption|]). split.
  { intros Hs. destruct (Hoa Hs), (Hob Hs).
    apply build_window_oriented. repeat constructor; assumption. }
  unfold auto_windows_from_scan. rewrite Ec, Ex. cbn [bind get nth_error].
  destruct (is_not_none c1 || is_not_none chi1); reflexivity.
Qed.

(** X21.  The analysis of [main] ends in [SystemExit] exactly when the
    detector finds no interval in [C] and none in [chi]; it never ends in
    an [IndexError]; and it ends in a [ZeroDivisionError] exactly when a
    window was found and the step is zero. *)
Theorem main_exits_without_peak args rows temps e_vals m_vals c_vals x_vals :
  read_full_scan_csv py_float rows = (temps, e_vals, m_vals, c_vals, x_vals) ->
  (main py_float fsum libm_log libm_pow args rows = SystemExit <->
   two_peak_half_intervals fsum c_vals temps = Ok [None; None] /\
   two_peak_half_intervals fsum x_vals temps = Ok [None; None]) /\
  main py_float fsum libm_log libm_pow args rows <> Uncaught IndexError /\
  (main py_float fsum libm_log libm_pow args rows = Uncaught ZeroDivisionError <->
   (tcstep args =? 0) = true /\ main py_float fsum libm_log libm_pow args rows <> SystemExit).
Proof.
  intros Hread.
  destruct (main_cases args rows _ _ _ _ _ Hread)
    as (c0 & c1 & chi0 & chi1 & Ec & Ex & Ha & Hb & _ & Hmain).
  rewrite Hmain, Ec, Ex. clear Hmain.
  rewrite build_window_present.
  destruct c0 as [[l0 r0]|], chi0 as [[l1 r1]|]; cbn [present flat_map app map].
  4: { destruct c1 as [i|]; [exfalso; apply Ha; [discriminate|reflexivity]|].
       destruct chi1 as [i|]; [exfalso; apply Hb; [discriminate|reflexivity]|].
       repeat split; try reflexivity; try discriminate.
       intros [_ C]. exfalso. apply C. reflexivity. }
  all: cbv zeta;
    match goal with |- context [if ?b then _ else _] => destruct b end;
    match goal with |- context [run_loglog_tc_scan ?f ?lg ?pw ?t ?m ?a ?b ?c ?d ?s] =>
      pose proof (scan_outcome f lg pw t m a b c d s) as Ho;
      destruct (run_loglog_tc_scan f lg pw t m a b c d s) as [[results best]|[]]
    end;
    intuition (try discriminate; try congruence).
Qed.

(** X22.  With the temperatures of the file in non-decreasing order, no
    [--tcmin] and no [--tcmax], and a positive finite step, an analysis
    that reaches its end has an automatic window with envelope and
    overlap in order and a table that is not empty, whose first
    candidate equals the lower bound of the overlap. *)
Theorem main_default_table args rows temps e_vals m_vals c_vals x_vals auto used results best :
  read_full_scan_csv py_float rows = (temps, e_vals, m_vals, c_vals, x_vals) ->
  nondecreasing temps = true ->
  tcmin args = None -> tcmax args = None ->
  (tcstep args >? 0) = true -> is_finite (tcstep args) = true ->
  main py_float fsum libm_log libm_pow args rows = Analysed auto used results best ->
  let '(t_env_min, t_env_max, tc_ov_min, tc_ov_max) := auto in
  (t_env_min <=? t_env_max) = true /\ (tc_ov_min <=? tc_ov_max) = true /\
  exists r rest,
    results = r :: rest /\ (tc_candidate r =? tc_ov_min) = true.
Proof.
  intros Hread Hs Hcmin Hcmax Hpos Hfin Hmain.
  destruct (main_cases args rows _ _ _ _ _ Hread)
    as (c0 & c1 & chi0 & chi1 & _ & _ & _ & _ & Hord & E).
  rewrite E in Hmain. clear E. specialize (Hord Hs).
  destruct (build_window [c0; chi0]) as [[[[a b] c] d]|]; [|discriminate].
  cbv zeta in Hmain. rewrite Hcmin, Hcmax in Hmain.
  destruct (run_loglog_tc_scan _ _ _ _ _ _ _ _ _ _) as [[rs bs]|e] eqn:Erun; [|discriminate].
  inversion Hmain; subst. destruct Hord as [H1 H2].
  split; [assumption|]. split; [assumption|].
  unfold run_loglog_tc_scan in Erun.
  apply bind_Ok in Erun. destruct Erun as [n [Hn Erun]].
  apply bind_Ok in Erun. destruct Erun as [rs' [Hrs Erun]]. inversion Erun; subst rs' best.
  destruct (scan_steps_finite libm_log libm_pow _ _ _ _ Hn) as [Hfmin _].
  pose proof (scan_steps_nonneg _ _ _ _ H2 Hpos Hn) as Hn0.
  destruct (py_range_succ n Hn0) as [steps Hsteps]. rewrite Hsteps in Hrs.
  cbn [scan_loop] in Hrs.
  destruct (first_candidate c d (tcstep args) Hfmin Hfin H2) as (Hc & He & Ho).
  rewrite Hc in Hrs. cbn [bind] in Hrs. rewrite Ho in Hrs.
  apply bind_Ok in Hrs. destruct Hrs as [r [Hr Hrs]].
  apply bind_Ok in Hrs. destruct Hrs as [rest [_ Hrs]]. inversion Hrs; subst results.
  exists r, rest. split; [reflexivity|].
  apply fit_candidate_tc in Hr. rewrite Hr. assumption.
Qed.

End MainProperties.

(** ** Examples *)

(** [build_window_single] on an inverted interval. *)
Lemma build_window_single_witness :
  build_window [None; Some (3, 1)] = Some (3, 1, 3, 1).
Proof.
  apply (build_window_single [None; Some (3, 1)] 3 1). reflexivity.
Defined.

(** [window_encloses_intervals] on two overlapping intervals. *)
Lemma window_encloses_intervals_witness :
  build_window [Some (1, 3); None; Some (2, 4)] = Some (1, 4, 2, 3) /\
  Forall (fun i => (1 <=? fst i) = true /\ (snd i <=? 4) = true)
    (present [Some (1, 3); None; Some (2, 4)]) /\
  ((2, 3) = (1, 4) \/
   (2 <=? 3) = true /\
   Forall (fun i => (fst i <=? 2) = true /\ (3 <=? snd i) = true)
     (present [Some (1, 3); None; Some (2, 4)])).
Proof.
  split; [reflexivity|].
  apply (window_encloses_intervals [Some (1, 3); None; Some (2, 4)] 1 4 2 3).
  - repeat constructor.
  - reflexivity.
Defined.

(** [two_slots_filled_in_order] on the example series. *)
Lemma two_slots_filled_in_order_witness :
  two_peak_half_intervals sum_left example_series example_scale
    = Ok [Some (8, 14); Some (7, 14)] /\
  exists r0 r1, [Some (8, 14); Some (7, 14)] = [r0; r1] /\ (r1 <> None -> r0 <> None).
Proof.
  split; [vm_compute; reflexivity|].
  apply (two_slots_filled_in_order sum_left example_series example_scale).
  vm_compute. reflexivity.
Defined.

(** [ranked_peaks_sorted] on the example series: the candidates 8, 10, 11
    and 13 have the values 4, 3, 3 and 5. *)
Lemma ranked_peaks_sorted_witness :
  ranked_peaks sum_left example_series = Ok [13; 8; 10; 11]%nat /\
  exists candidates,
    peak_candidates sum_left example_series = Ok candidates /\
    Permutation [13; 8; 10; 11]%nat candidates /\ NoDup [13; 8; 10; 11]%nat /\
    StronglySorted (fun i j => (nth j example_series 0 <=? nth i example_series 0) = true)
      [13; 8; 10; 11]%nat.
Proof.
  split; [vm_compute; reflexivity|].
  apply (ranked_peaks_sorted sum_left example_series [13; 8; 10; 11]%nat).
  vm_compute. reflexivity.
Defined.

(** [ranked_peak_conditions] on the example series. *)
Lemma ranked_peak_conditions_witness :
  length example_series <> 1%nat /\
  ranked_peaks sum_left example_series = Ok [13; 8; 10; 11]%nat /\
  Forall (peak_conditions sum_left example_series) [13; 8; 10; 11]%nat.
Proof.
  split; [discriminate|]. split; [vm_compute; reflexivity|].
  apply (ranked_peak_conditions sum_left example_series [13; 8; 10; 11]%nat).
  - discriminate.
  - vm_compute. reflexivity.
Defined.

(** [no_peak_series] on three samples, without temperatures. *)
Lemma no_peak_series_witness :
  two_peak_half_intervals sum_left [3; 1; 2] [] = Ok [None; None].
Proof.
  apply (no_peak_series sum_left [3; 1; 2] []).
  - discriminate.
  - left. simpl. lia.
Defined.

(** [intervals_oriented] on the example series. *)
Lemma intervals_oriented_witness :
  nondecreasing example_scale = true /\
  Forall oriented [Some (8, 14); Some (7, 14)].
Proof.
  split; [reflexivity|].
  apply (intervals_oriented sum_left example_series example_scale).
  - reflexivity.
  - vm_compute. reflexivity.
Defined.

(** [detector_raises_only_index_error] with three temperatures for the
    fifteen values. *)
Lemma detector_raises_only_index_error_witness :
  two_peak_half_intervals sum_left example_series [1; 2; 3] = Raise IndexError /\
  IndexError = IndexError /\ (length [1; 2; 3] < length example_series)%nat.
Proof.
  split; [vm_compute; reflexivity|].
  apply (detector_raises_only_index_error sum_left example_series [1; 2; 3] IndexError).
  vm_compute. reflexivity.
Defined.

(** [auto_windows_returns] with a second series shorter than the
    temperatures. *)
Lemma auto_windows_returns_witness :
  exists primary secondary,
    auto_windows_from_scan sum_left example_series [0; 0; 0; 0; 0; 1; 2; 3; 4; 3]
      example_scale = Ok (primary, secondary).
Proof.
  apply (auto_windows_returns sum_left example_series [0; 0; 0; 0; 0; 1; 2; 3; 4; 3]
           example_scale).
  - simpl. lia.
  - simpl. lia.
Defined.

(** [auto_windows_from_slots] on the same input. *)
Lemma auto_windows_from_slots_witness :
  exists c0 c1 chi0 chi1,
    two_peak_half_intervals sum_left example_series example_scale = Ok [c0; c1] /\
    two_peak_half_intervals sum_left [0; 0; 0; 0; 0; 1; 2; 3; 4; 3] example_scale
      = Ok [chi0; chi1] /\
    Some (7, 14, 8, 10) = build_window [c0; chi0] /\
    Some (7, 14, 7, 14) = build_window [c1; chi1] /\
    (Some (7, 14, 8, 10) = None <-> c0 = None /\ chi0 = None) /\
    (Some (7, 14, 8, 10) = None -> Some (7, 14, 7, 14) = None).
Proof.
  apply (auto_windows_from_slots sum_left example_series [0; 0; 0; 0; 0; 1; 2; 3; 4; 3]
           example_scale (Some (7, 14, 8, 10)) (Some (7, 14, 7, 14))).
  vm_compute. reflexivity.
Defined.

(** [auto_windows_ordered] on the same input. *)
Lemma auto_windows_ordered_witness :
  window_ordered (Some (7, 14, 8, 10)) /\ window_ordered (Some (7, 14, 7, 14)).
Proof.
  apply (auto_windows_ordered sum_left example_series [0; 0; 0; 0; 0; 1; 2; 3; 4; 3]
           example_scale (Some (7, 14, 8, 10)) (Some (7, 14, 7, 14))).
  - reflexivity.
  - vm_compute. reflexivity.
Defined.

(** [table_starts_at_tc_min] on the five candidates from 6.5 to 7.5. *)
Lemma table_starts_at_tc_min_witness :
  exists results best,
    run_loglog_tc_scan sum_left example_log example_pow example_temps example_mags
      0 10 6.5 7.5 0.25 = Ok (results, best) /\
    exists r rest,
      results = r :: rest /\ tc_candidate r = 6.5 + 0 * 0.25 /\
      (tc_candidate r =? 6.5) = true.
Proof.
  eexists. eexists. split.
  - vm_compute. reflexivity.
  - eapply (table_starts_at_tc_min sum_left example_log example_pow
              example_temps example_mags 0 10 6.5 7.5 0.25).
    + reflexivity.
    + reflexivity.
    + reflexivity.
    + vm_compute. reflexivity.
Defined.

(** [table_records] on the same scan. *)
Lemma table_records_witness :
  exists results best,
    run_loglog_tc_scan sum_left example_log example_pow example_temps example_mags
      0 10 6.5 7.5 0.25 = Ok (results, best) /\
    Forall (fun r =>
              n_points r = length (fit_pairs example_temps example_mags 0 10 (tc_candidate r)) /\
              (n_points r <= Nat.min (length example_temps) (length example_mags))%nat /\
              beta r = slope r /\
              ((n_points r < 4)%nat -> r = sentinel (tc_candidate r) (n_points r)) /\
              (is_valid r = true ->
               (4 <= n_points r)%nat /\ (slope r >? 0) = true /\
               (r_squared r >? 0) = true /\ (r_squared r <=? 1) = true)) results.
Proof.
  eexists. eexists. split.
  - vm_compute. reflexivity.
  - eapply (table_records sum_left example_log example_pow
              example_temps example_mags 0 10 6.5 7.5 0.25).
    vm_compute. reflexivity.
Defined.

(** [best_is_proper_fit] on the same scan. *)
Lemma best_is_proper_fit_witness :
  exists results b,
    run_loglog_tc_scan sum_left example_log example_pow example_temps example_mags
      0 10 6.5 7.5 0.25 = Ok (results, Some b) /\
    In b results /\ (4 <= n_points b)%nat /\ beta b = slope b /\
    (slope b >? 0) = true /\ (r_squared b >? 0) = true /\ (r_squared b <=? 1) = true /\
    n_points b = length (fit_pairs example_temps example_mags 0 10 (tc_candidate b)).
Proof.
  eexists. eexists. split.
  - vm_compute. reflexivity.
  - eapply (best_is_proper_fit sum_left example_log example_pow
              example_temps example_mags 0 10 6.5 7.5 0.25).
    vm_compute. reflexivity.
Defined.

(** [fit_points_monotone] on the candidates 5 and 5.5 of a scan whose
    window holds all the samples. *)
Lemma fit_points_monotone_witness :
  exists results best r1 r2,
    run_loglog_tc_scan sum_left example_log example_pow example_temps example_mags
      0 10 5 7 0.5 = Ok (results, best) /\
    In r1 results /\ In r2 results /\
    (tc_candidate r1 <=? tc_candidate r2) = true /\
    (n_points r1 <= n_points r2)%nat.
Proof.
  eexists. eexists. eexists. eexists.
  split; [vm_compute; reflexivity|].
  split; [left; reflexivity|].
  split; [right; left; reflexivity|].
  split; [reflexivity|].
  eapply (fit_points_monotone sum_left example_log example_pow
            example_temps example_mags 0 10 5 7 0.5).
  - vm_compute. reflexivity.
  - left. reflexivity.
  - right. left. reflexivity.
  - reflexivity.
Defined.

(** [full_columns_aligned] on the example file: ten of its twelve rows
    after the header are records. *)
Lemma full_columns_aligned_witness :
  exists temps e_vals m_vals c_vals x_vals,
    read_full_scan_csv example_float example_rows
      = (temps, e_vals, m_vals, c_vals, x_vals) /\
    length e_vals = length temps /\ length m_vals = length temps /\
    length c_vals = length temps /\ length x_vals = length temps /\
    (length temps <= length example_rows - 1)%nat.
Proof.
  do 5 eexists. split.
  - vm_compute. reflexivity.
  - eapply (full_columns_aligned example_float example_rows).
    vm_compute. reflexivity.
Defined.

(** [readers_agree] on the example file. *)
Lemma readers_agree_witness :
  exists temps e_vals m_vals c_vals x_vals,
    Forall (fun row => is_not_none (scan_row example_float row) = true ->
                       is_not_none (full_row example_float row) = true)
      (tl example_rows) /\
    read_full_scan_csv example_float example_rows
      = (temps, e_vals, m_vals, c_vals, x_vals) /\
    read_scan_csv example_float example_rows = (temps, m_vals).
Proof.
  do 5 eexists.
  assert (H : Forall (fun row => is_not_none (scan_row example_float row) = true ->
                                 is_not_none (full_row example_float row) = true)
                (tl example_rows)).
  { repeat constructor; vm_compute; intros H; exact H. }
  split; [exact H|]. split.
  - vm_compute. reflexivity.
  - eapply (readers_agree example_float example_rows); [exact H|].
    vm_compute. reflexivity.
Defined.

(** [read_then_auto_windows] on the example file. *)
Lemma read_then_auto_windows_witness :
  exists temps e_vals m_vals c_vals x_vals,
    read_full_scan_csv example_float example_rows
      = (temps, e_vals, m_vals, c_vals, x_vals) /\
    exists primary secondary,
      auto_windows_from_scan sum_left c_vals x_vals temps = Ok (primary, secondary).
Proof.
  do 5 eexists. split.
  - vm_compute. reflexivity.
  - eapply (read_then_auto_windows example_float sum_left example_rows).
    vm_compute. reflexivity.
Defined.

(** [main_exits_without_peak] on the example file. *)
Lemma main_exits_without_peak_witness :
  exists temps e_vals m_vals c_vals x_vals,
    read_full_scan_csv example_float example_rows
      = (temps, e_vals, m_vals, c_vals, x_vals) /\
    (main example_float sum_left example_log example_pow example_args example_rows
       = SystemExit <->
     two_peak_half_intervals sum_left c_vals temps = Ok [None; None] /\
     two_peak_half_intervals sum_left x_vals temps = Ok [None; None]) /\
    main example_float sum_left example_log example_pow example_args example_rows
      <> Uncaught IndexError /\
    (main example_float sum_left example_log example_pow example_args example_rows
       = Uncaught ZeroDivisionError <->
     (tcstep example_args =? 0) = true /\
     main example_float sum_left example_log example_pow example_args example_rows
       <> SystemExit).
Proof.
  do 5 eexists. split.
  - vm_compute. reflexivity.
  - eapply (main_exits_without_peak example_float sum_left example_log example_pow
              example_args example_rows).
    vm_compute. reflexivity.
Defined.

(** [main_default_table] on the example file: the window is
    [(7, 10, 8, 10)] and the table has the five candidates from 8
    to 10. *)
Lemma main_default_table_witness :
  exists temps e_vals m_vals c_vals x_vals used results best,
    read_full_scan_csv example_float example_rows
      = (temps, e_vals, m_vals, c_vals, x_vals) /\
    nondecreasing temps = true /\
    main example_float sum_left example_log example_pow example_args example_rows
      = Analysed (7, 10, 8, 10) used results best /\
    (7 <=? 10) = true /\ (8 <=? 10) = true /\
    exists r rest, results = r :: rest /\ (tc_candidate r =? 8) = true.
Proof.
  do 8 eexists.
  split; [vm_compute; reflexivity|].
  split; [vm_compute; reflexivity|].
  split; [vm_compute; reflexivity|].
  eapply (main_default_table example_float sum_left example_log example_pow
            example_args example_rows _ _ _ _ _ (7, 10, 8, 10)).
  - vm_compute. reflexivity.
  - vm_compute. reflexivity.
  - reflexivity.
  - reflexivity.
  - reflexivity.
  - reflexivity.
  - vm_compute. reflexivity.
Defined.
